(** * CodePilot API layer ([lib/api.ts]): response normalisation, error
    classification and abort/timeout wiring of [runCodePilot].

    The TypeScript module is embedded shallowly:
    - untyped payloads ([raw: any]) are values of [JsValue], objects being
      finite maps from property names to values;
    - code that can raise runs in the [Completion] monad;
    - the asynchronous part ([setTimeout], [AbortController], [fetch],
      [await]) is a discrete-event machine stepping over a timed list of
      things the environment does while the call is suspended. *)

From Stdlib Require Import Floats.PrimFloat.
From stdpp Require Import gmap strings list fin_maps pretty.

Open Scope string_scope.
Set Warnings "-register-all".

(** ** JavaScript values *)

Module Js.

(** What [JSON.parse] can produce, plus [undefined].  Numbers are IEEE
    doubles.  Object keys are unique and their order plays no role in this
    module, hence a finite map. *)
Inductive JsValue : Type :=
| JUndefined
| JNull
| JBool (b : bool)
| JNum (x : float)
| JStr (s : string)
| JArr (xs : list JsValue)
| JObj (props : gmap string JsValue).

(** [v == null], the test behind [?.] and [??]. *)
Definition nullish (v : JsValue) : bool :=
  match v with
  | JUndefined | JNull => true
  | _ => false
  end.

(** An instance of [class CodePilotError extends Error]; its [name] is
    the constant ["CodePilotError"] set by the constructor. *)
Record CodePilotError : Type := new_CodePilotError {
  message : string;
  status : option N
}.

(** Anything a [throw], a rejected promise or an abort reason can carry:
    a plain value (platform error objects included, as objects with a
    [name] and a [message]) or an instance of the module's own class. *)
Inductive Thrown : Type :=
| ThrowVal (v : JsValue)
| ThrowCodePilotError (e : CodePilotError).

(** Outcome of evaluating an expression or a block: a value, or a raised
    exception.  For an [async] function: fulfilled, or rejected. *)
Inductive Completion (A : Type) : Type :=
| Normal (a : A)
| Throws (e : Thrown).
Arguments Normal {A} a.
Arguments Throws {A} e.

#[global] Instance Completion_ret : MRet Completion := λ A a, Normal a.

#[global] Instance Completion_bind : MBind Completion := λ A B k c,
  match c with
  | Normal a => k a
  | Throws e => Throws e
  end.

(** A platform error object ([DOMException], [TypeError], ...), seen through
    the two properties the module reads from caught values. *)
Definition ErrorObject (name msg : string) : JsValue :=
  JObj {[ "name" := JStr name; "message" := JStr msg ]}.

(** [v.k]: reading a property of [undefined] or [null] raises; an object
    yields its own property or [undefined]; primitives and arrays have no
    own data property under the names this module reads (none of them is
    a member of a built-in prototype). *)
Definition getMember (v : JsValue) (k : string) : Completion JsValue :=
  match v with
  | JUndefined | JNull =>
      Throws (ThrowVal (ErrorObject "TypeError"
                ("Cannot read properties of null or undefined: " ++ k)))
  | JObj props => Normal (default JUndefined (props !! k))
  | _ => Normal JUndefined
  end.

(** [v?.k]: short-circuits to [undefined] on a nullish receiver. *)
Definition optChain (v : JsValue) (k : string) : Completion JsValue :=
  if nullish v then Normal JUndefined else getMember v k.

(** [a ?? b], with [b] evaluated only when [a] is nullish. *)
Definition coalesce (a b : Completion JsValue)
  : Completion JsValue :=
  x ← a; if nullish x then b else Normal x.

Notation "a ?? b" := (coalesce a b) (at level 60, right associativity).

End Js.
Import Js.

(** ** [normaliseResponse] *)

Definition normaliseResponse (raw : JsValue) : Completion JsValue :=
  executionLog ← (optChain raw "execution_log" ?? Normal JNull);
  request_id ← (optChain raw "request_id" ?? Normal JNull);
  intent_result ←
    ((optChain raw "intent_result" ?? optChain raw "intent_classification")
       ?? Normal JNull);
  planning_result ←
    ((optChain raw "planning_result" ?? optChain raw "engineering_plan")
       ?? Normal JNull);
  test_result ←
    ((optChain raw "test_result" ?? optChain raw "test_results")
       ?? Normal JNull);
  debug_result ←
    ((optChain raw "debug_result" ?? optChain raw "debug_analysis")
       ?? Normal JNull);
  generated_code ← (optChain raw "generated_code" ?? Normal JNull);
  Normal (JObj {[ "request_id" := request_id;
                  "intent_result" := intent_result;
                  "planning_result" := planning_result;
                  "test_result" := test_result;
                  "debug_result" := debug_result;
                  "generated_code" := generated_code;
                  "execution_log" := executionLog ]}).

(** The keys of the object literal returned by [normaliseResponse]. *)
Definition canonical_fields : list string :=
  [ "request_id"; "intent_result"; "planning_result"; "test_result";
    "debug_result"; "generated_code"; "execution_log" ].

(** The four fields resolved through a legacy alias:
    (canonical name and primary key, legacy alias). *)
Definition aliased_fields : list (string * string) :=
  [ ("intent_result", "intent_classification");
    ("planning_result", "engineering_plan");
    ("test_result", "test_results");
    ("debug_result", "debug_analysis") ].

(** ** Pure readings used to state what the code computes *)

(** What [raw?.k] evaluates to. *)
Definition ownProp (raw : JsValue) (k : string) : JsValue :=
  match raw with
  | JObj props => default JUndefined (props !! k)
  | _ => JUndefined
  end.

(** What [a ?? b] evaluates to when neither side raises. *)
Definition orElse (a b : JsValue) : JsValue := if nullish a then b else a.

Definition is_undefined (v : JsValue) : bool :=
  match v with JUndefined => true | _ => false end.

Definition is_sequence (v : JsValue) : bool :=
  match v with JArr _ => true | _ => false end.

(** A value has the canonical shape when it is an object carrying exactly
    the keys of [canonical_fields], none of them [undefined]. *)
Definition is_canonical (v : JsValue) : bool :=
  match v with
  | JObj m =>
      bool_decide (dom m = list_to_set canonical_fields)
      && forallb (λ k, negb (is_undefined (default JUndefined (m !! k))))
           canonical_fields
  | _ => false
  end.

(** The object built by the [return] statement, every read resolved. *)
Definition normalised (raw : JsValue) : gmap string JsValue :=
  {[ "request_id" := orElse (ownProp raw "request_id") JNull;
     "intent_result" :=
       orElse (orElse (ownProp raw "intent_result")
                      (ownProp raw "intent_classification")) JNull;
     "planning_result" :=
       orElse (orElse (ownProp raw "planning_result")
                      (ownProp raw "engineering_plan")) JNull;
     "test_result" :=
       orElse (orElse (ownProp raw "test_result")
                      (ownProp raw "test_results")) JNull;
     "debug_result" :=
       orElse (orElse (ownProp raw "debug_result")
                      (ownProp raw "debug_analysis")) JNull;
     "generated_code" := orElse (ownProp raw "generated_code") JNull;
     "execution_log" := orElse (ownProp raw "execution_log") JNull ]}.

(** ** Platform behaviour the module relies on

    [fetch], [AbortController] and the timer queue belong to the host, not
    to this repository.  The two points at which hosts differ are kept as
    parameters, next to the one environment setting the module reads. *)
Record Platform : Type := {
  (** [process.env.NEXT_PUBLIC_API_BASE] *)
  NEXT_PUBLIC_API_BASE : option string;
  (** message of the [AbortError] [DOMException] that [abort()] uses as
      the reason when called without one *)
  defaultAbortMessage : string;
  (** the value with which [fetch] (or the body reader) rejects when its
      signal is aborted with the given reason *)
  abortRejection : Thrown → Thrown;
  (** what [setTimeout] makes of a delay that does not fit its signed
      32-bit delay, that is one above 2147483647 ms *)
  timerOverflow : N → N
}.

(** The HTML standard: the delay is converted to a 32-bit integer, and a
    negative result counts as 0.  (Node uses 1 ms instead.) *)
Definition wrapToInt32 (ms : N) : N :=
  let wrapped := (ms mod 4294967296)%N in
  if (wrapped <? 2147483648)%N then wrapped else 0%N.

(** The Fetch standard: the promise is rejected with the signal's abort
    reason itself. *)
Definition whatwg : Platform :=
  {| NEXT_PUBLIC_API_BASE := None;
     defaultAbortMessage := "signal is aborted without reason";
     abortRejection := λ reason, reason;
     timerOverflow := wrapToInt32 |}.

(** Hosts that predate abort reasons: always a fresh [AbortError]. *)
Definition legacy : Platform :=
  {| NEXT_PUBLIC_API_BASE := None;
     defaultAbortMessage := "The user aborted a request.";
     abortRejection := λ _,
       ThrowVal (ErrorObject "AbortError" "The user aborted a request.");
     timerOverflow := wrapToInt32 |}.

(** The delay after which a timer set with [setTimeout(f, ms)] fires, for
    a whole, non-negative [ms]: [ms] itself when it fits the 32-bit delay,
    otherwise what the host makes of it, which fits. *)
Definition timerDelay (p : Platform) (ms : N) : N :=
  if (ms <=? 2147483647)%N then ms
  else (timerOverflow p ms mod 2147483648)%N.
Arguments timerDelay : simpl never.

Definition API_BASE (p : Platform) : string :=
  default "http://127.0.0.1:8000" (NEXT_PUBLIC_API_BASE p).

(** [abort(reason)] stores [reason], or the default [AbortError] when
    [reason] is [undefined]. *)
Definition abortReason (p : Platform) (reason : Thrown) : Thrown :=
  match reason with
  | ThrowVal JUndefined =>
      ThrowVal (ErrorObject "AbortError" (defaultAbortMessage p))
  | _ => reason
  end.

(** ** Signals, options, responses *)

(** The caller-owned [AbortSignal].  [listeners] holds the one-shot
    ["abort"] listeners added by [mergeAbortSignals], each named by the
    controller its closure aborts, in registration order. *)
Record AbortSignal : Type := {
  aborted : bool;
  reason : Thrown;
  listeners : list nat
}.

(** The signal of the [AbortController] created by the call. *)
Record Controller : Type := {
  ctl_aborted : bool;
  ctl_reason : Thrown
}.

Definition new_AbortController : Controller :=
  {| ctl_aborted := false; ctl_reason := ThrowVal JUndefined |}.

(** [controller.abort(reason)] on the controller alone: a second abort
    changes nothing. *)
Definition Controller_abort (p : Platform) (r : Thrown) (c : Controller)
  : Controller :=
  if ctl_aborted c then c
  else {| ctl_aborted := true; ctl_reason := abortReason p r |}.

Record RunCodePilotOptions : Type := {
  problem : string;
  userId : option string;
  timeoutMs : option N;
  signal : option AbortSignal
}.

(** The part of a [Response] available once [fetch] resolves. *)
Record Response : Type := {
  res_status : N;
  res_statusText : string
}.

(** [res.ok]: status in the range 200-299. *)
Definition res_ok (res : Response) : bool :=
  (200 <=? res_status res)%N && (res_status res <=? 299)%N.

(** One outbound [POST]: its URL and the two members of its JSON body. *)
Record Request : Type := {
  req_url : string;
  req_problem : string;
  req_user_id : option string
}.

(** ** [mergeAbortSignals]

    [cid] names the controller allocated by [new AbortController()].
    Returns the controller and the caller's signal as the call leaves it. *)
Definition mergeAbortSignals (p : Platform) (cid : nat)
    (parent : option AbortSignal) : Controller * option AbortSignal :=
  let controller := new_AbortController in
  match parent with
  | None => (controller, None)
  | Some s =>
      if aborted s
      then (Controller_abort p (reason s) controller, Some s)
      else (controller,
            Some {| aborted := false; reason := reason s;
                    listeners := listeners s ++ [cid] |})
  end.

(** ** The [try] / [catch] / [finally] of [runCodePilot] *)

(** [error?.k] on a caught value. *)
Definition caughtProp (error : Thrown) (k : string) : Completion JsValue :=
  match error with
  | ThrowVal v => optChain v k
  | ThrowCodePilotError e =>
      Normal (if decide (k = "name") then JStr "CodePilotError"
              else if decide (k = "message") then JStr (message e)
              else JUndefined)
  end.

Definition instanceof_CodePilotError (error : Thrown) : bool :=
  match error with
  | ThrowCodePilotError _ => true
  | ThrowVal _ => false
  end.

(** [x === "AbortError"]. *)
Definition is_AbortError_name (x : JsValue) : bool :=
  match x with
  | JStr s => bool_decide (s = "AbortError")
  | _ => false
  end.

Definition network_error : CodePilotError :=
  new_CodePilotError
    "Network error while calling CodePilot. Please try again." None.

(** The [catch (error)] clause: every path ends in a [throw].  The
    conditional reads [message] twice, getting the same value. *)
Definition catchClause (error : Thrown) : Completion JsValue :=
  name ← caughtProp error "name";
  if is_AbortError_name name then
    msg ← caughtProp error "message";
    Throws (ThrowCodePilotError
              (new_CodePilotError
                 (match msg with
                  | JStr m => m
                  | _ => "Request aborted or timed out"
                  end) None))
  else if instanceof_CodePilotError error then Throws error
  else Throws (ThrowCodePilotError network_error).

(** The statements between the two [await]s. *)
Definition checkStatus (res : Response) : Completion unit :=
  if negb (res_ok res) then
    Throws (ThrowCodePilotError
              (new_CodePilotError
                 ("Backend error: " ++ pretty (res_status res) ++ " "
                    ++ res_statusText res)
                 (Some (res_status res))))
  else Normal ().

(** ** The call as a machine *)

Inductive Phase : Type :=
| AwaitFetch                        (* suspended at [await fetch(...)] *)
| AwaitJson                         (* suspended at [await res.json()] *)
| Settled (o : Completion JsValue). (* the returned promise has settled *)

(** Everything the call creates or touches.  [timer] is [Some due] while
    the timeout scheduled by [setTimeout] is pending. *)
Record Call : Type := {
  cid : nat;
  parent : option AbortSignal;
  controller : Controller;
  timer : option N;
  requests : list Request;
  phase : Phase
}.

Definition is_settled (st : Call) : bool :=
  match phase st with Settled _ => true | _ => false end.

(** Leaving the [try]: a raised value goes through the [catch] clause,
    then [finally] runs [clearTimeout] and the promise settles. *)
Definition settle (c : Completion JsValue) (st : Call) : Call :=
  let o := match c with
           | Normal v => Normal v
           | Throws error => catchClause error
           end in
  {| cid := cid st; parent := parent st; controller := controller st;
     timer := None; requests := requests st; phase := Settled o |}.

(** [controller.abort(reason)]: the first abort marks the signal and makes
    the pending [fetch] or body read reject. *)
Definition abortController (p : Platform) (r : Thrown) (st : Call) : Call :=
  if ctl_aborted (controller st) then st
  else
    let c := Controller_abort p r (controller st) in
    let st' := {| cid := cid st; parent := parent st; controller := c;
                  timer := timer st; requests := requests st;
                  phase := phase st |} in
    match phase st with
    | AwaitFetch | AwaitJson =>
        settle (Throws (abortRejection p (ctl_reason c))) st'
    | Settled _ => st'
    end.

(** The timeout callback [() => controller.abort("Request timed out")]. *)
Definition fireTimer (p : Platform) (st : Call) : Call :=
  match timer st with
  | Some _ =>
      abortController p (ThrowVal (JStr "Request timed out"))
        {| cid := cid st; parent := parent st; controller := controller st;
           timer := None; requests := requests st; phase := phase st |}
  | None => st
  end.

(** The owner of the caller's signal aborts it: the signal records the
    reason and dispatches ["abort"], which runs and drops the one-shot
    listeners. *)
Definition callerAborts (p : Platform) (r : Thrown) (st : Call) : Call :=
  match parent st with
  | Some s =>
      if aborted s then st
      else
        let s' := {| aborted := true; reason := abortReason p r;
                     listeners := [] |} in
        let st' := {| cid := cid st; parent := Some s';
                      controller := controller st; timer := timer st;
                      requests := requests st; phase := phase st |} in
        if bool_decide (cid st ∈ listeners s)
        then abortController p (reason s') st'
        else st'
  | None => st
  end.

(** What the environment can do while the call is suspended. *)
Inductive Event : Type :=
| CallerAborts (r : Thrown)
| FetchResolves (res : Response)
| FetchRejects (err : Thrown)
| JsonResolves (raw : JsValue)
| JsonRejects (err : Thrown).

Definition withPhase (ph : Phase) (st : Call) : Call :=
  {| cid := cid st; parent := parent st; controller := controller st;
     timer := timer st; requests := requests st; phase := ph |}.

Definition handle (p : Platform) (ev : Event) (st : Call) : Call :=
  match ev, phase st with
  | CallerAborts r, _ => callerAborts p r st
  | FetchResolves res, AwaitFetch =>
      match checkStatus res with
      | Normal _ => withPhase AwaitJson st
      | Throws e => settle (Throws e) st
      end
  | FetchRejects err, AwaitFetch => settle (Throws err) st
  | JsonResolves raw, AwaitJson => settle (normaliseResponse raw) st
  | JsonRejects err, AwaitJson => settle (Throws err) st
  | _, _ => st
  end.

(** Time reaches [t]: a pending timeout that is due fires. *)
Definition tick (p : Platform) (t : N) (st : Call) : Call :=
  match timer st with
  | Some due => if (due <=? t)%N then fireTimer p st else st
  | None => st
  end.

Definition step (p : Platform) (st : Call) (tev : N * Event) : Call :=
  handle p tev.2 (tick p tev.1 st).

(** The synchronous prefix of [runCodePilot], up to the first [await].
    The timeout is due after the delay [setTimeout] really uses for
    [timeoutMs].  [fetch] on an aborted signal rejects at once and sends
    nothing. *)
Definition start (p : Platform) (t0 : N) (cid : nat)
    (opts : RunCodePilotOptions) : Call :=
  let '(controller, parent) := mergeAbortSignals p cid (signal opts) in
  let timeout := (t0 + timerDelay p (default 60000 (timeoutMs opts)))%N in
  let st := {| cid := cid; parent := parent; controller := controller;
               timer := Some timeout; requests := []; phase := AwaitFetch |} in
  if ctl_aborted controller
  then settle (Throws (abortRejection p (ctl_reason controller))) st
  else {| cid := cid; parent := parent; controller := controller;
          timer := Some timeout;
          requests := [ {| req_url := API_BASE p ++ "/solve";
                           req_problem := problem opts;
                           req_user_id := userId opts |} ];
          phase := AwaitFetch |}.

(** The state of the call after the environment has produced [evs]. *)
Definition exec (p : Platform) (t0 : N) (cid : nat)
    (opts : RunCodePilotOptions) (evs : list (N * Event)) : Call :=
  foldl (step p) (start p t0 cid opts) evs.

(** [runCodePilot], called at time [t0], with the environment producing
    [evs] and then nothing more: a timeout still pending fires. *)
Definition runCodePilot (p : Platform) (t0 : N) (cid : nat)
    (opts : RunCodePilotOptions) (evs : list (N * Event)) : Call :=
  fireTimer p (exec p t0 cid opts evs).

(** ** [runCodePilotStream] *)

Record CodePilotStreamHandlers : Type := {
  onPartialUpdate : option (JsValue → unit);
  onComplete : option (JsValue → unit)
}.

(** Threads the log of outbound requests, which the body never extends. *)
Definition runCodePilotStream (_options : RunCodePilotOptions)
    (_handlers : CodePilotStreamHandlers) (sent : list Request)
  : Completion unit * list Request :=
  (Throws (ThrowCodePilotError
             (new_CodePilotError "Streaming API is not enabled yet." None)),
   sent).

(** ** Payloads and options used in the examples *)

(** [{"request_id":"r1","test_results":{"summary":"ok","cases":[]}}] *)
Definition legacy_body : JsValue :=
  JObj {[ "request_id" := JStr "r1";
          "test_results" :=
            JObj {[ "summary" := JStr "ok"; "cases" := JArr [] ]} ]}.

(** [{"test_result":{"summary":"ok"}}] *)
Definition sparse_body : JsValue :=
  JObj {[ "test_result" := JObj {[ "summary" := JStr "ok" ]} ]}.

(** A response in canonical shape. *)
Definition canonical_body : JsValue :=
  JObj {[ "request_id" := JStr "r1";
          "intent_result" := JNull;
          "planning_result" := JNull;
          "test_result" :=
            JObj {[ "summary" := JStr "ok"; "cases" := JArr [] ]};
          "debug_result" := JNull;
          "generated_code" := JStr "print(1)";
          "execution_log" := JArr [] ]}.

(** The nested fields the data model calls sequences:
    (parent field, its legacy alias, nested field). *)
Definition nested_sequence_fields : list (string * string * string) :=
  [ ("planning_result", "engineering_plan", "alternative_approaches");
    ("test_result", "test_results", "cases");
    ("debug_result", "debug_analysis", "issues");
    ("debug_result", "debug_analysis", "suggestions") ].

(** A caller's signal that has not been aborted and has no listener. *)
Definition fresh_signal : AbortSignal :=
  {| aborted := false; reason := ThrowVal JUndefined; listeners := [] |}.

Definition http_error (res : Response) : CodePilotError :=
  new_CodePilotError
    ("Backend error: " ++ pretty (res_status res) ++ " " ++ res_statusText res)
    (Some (res_status res)).

Definition streaming_error : CodePilotError :=
  new_CodePilotError "Streaming API is not enabled yet." None.

(** ** Predicates on machine states *)

(** While the call is suspended its controller is live and its timeout
    pending; once it has settled the timeout is gone. *)
Definition wired (st : Call) : Prop :=
  match phase st with
  | Settled _ => timer st = None
  | _ => ctl_aborted (controller st) = false ∧ is_Some (timer st)
  end.

(** Once the promise has settled nothing the environment does changes its
    outcome, and the timeout stays cleared. *)
Definition settled_with (o : Completion JsValue) (st : Call) : Prop :=
  phase st = Settled o ∧ timer st = None.

(** What a settled call hands to its caller: a response in canonical
    shape, or an instance of the module's error class. *)
Definition classified (st : Call) : Prop :=
  match phase st with
  | Settled (Normal r) => is_canonical r = true
  | Settled (Throws e) => instanceof_CodePilotError e = true
  | _ => True
  end.

(** A step never re-arms the timeout: it keeps it or drops it. *)
Definition timer_kept (st st' : Call) : Prop :=
  timer st' = timer st ∨ timer st' = None.

(** How a call with controller [c] leaves a caller's signal that was [s]
    when the call started and is [s'] now. *)
Definition subscription (c : nat) (s s' : AbortSignal) : Prop :=
  if aborted s then s' = s
  else if aborted s' then listeners s' = []
  else s' = {| aborted := false; reason := reason s;
               listeners := listeners s ++ [c] |}.

Definition tracks (c : nat) (sig : option AbortSignal) (st : Call) : Prop :=
  match sig, parent st with
  | None, None => True
  | Some s, Some s' => subscription c s s'
  | _, _ => False
  end.

(** ** The page ([app/page.tsx]): [handleRun] *)

Module HomePage.

Inductive ToastType : Type := ToastError | ToastInfo | ToastSuccess.

(** The three [useState] cells of the page, and the calls made to
    [toast.showToast], oldest first. *)
Record State : Type := {
  result : option JsValue;
  isLoading : bool;
  error : option string;
  shown : list (string * ToastType)
}.

(** The statements of [handleRun] before its [await]. *)
Definition begin (s : State) : State :=
  {| result := None; isLoading := true; error := None; shown := shown s |}.

(** The rest of [handleRun], run when the awaited promise settles with
    [o]: the assignment or the [catch] clause, then [finally]. *)
Definition resume (o : Completion JsValue) (s : State) : State :=
  match o with
  | Normal data =>
      {| result := Some data; isLoading := false; error := error s;
         shown := shown s |}
  | Throws e =>
      let message :=
        match e with
        | ThrowCodePilotError cpe => Js.message cpe
        | ThrowVal _ => "Unexpected error while running CodePilot."
        end in
      {| result := result s; isLoading := false; error := Some message;
         shown := shown s ++ [(message, ToastError)] |}
  end.

(** [handleRun(problem)] against an environment producing [evs]: the call
    is [runCodePilot({ problem })], with no user id, no timeout override and
    no signal. *)
Definition handleRun (p : Platform) (t0 : N) (cid : nat) (problem : string)
    (evs : list (N * Event)) (s : State) : State :=
  let call := runCodePilot p t0 cid
                {| problem := problem; userId := None; timeoutMs := None;
                   signal := None |} evs in
  match phase call with
  | Settled o => resume o (begin s)
  | _ => begin s
  end.

End HomePage.

(** ** [ToastProvider] *)

Module ToastProvider.

Record Toast : Type := {
  id : string;
  message : string;
  type : option HomePage.ToastType
}.

(** The [toasts] state cell and the timer of the [useEffect], [Some due]
    while pending. *)
Record State : Type := {
  toasts : list Toast;
  timer : option N
}.

(** The effect, re-run at time [t] because [toasts] changed: the previous
    timer has been cleared by the cleanup; a new one is set unless the list
    is empty. *)
Definition effect (t : N) (ts : list Toast) : State :=
  {| toasts := ts;
     timer := match ts with [] => None | _ => Some (t + 4000)%N end |}.

(** [showToast(message, type)] at time [t]; [i] is the id built from
    [Date.now()] and [Math.random()]. *)
Definition showToast (t : N) (i : string) (message : string)
    (type : option HomePage.ToastType) (st : State) : State :=
  effect t (toasts st ++ [ {| id := i; message := message; type := type |} ]).

(** [dismiss(id)] at time [t]. *)
Definition dismiss (t : N) (i : string) (st : State) : State :=
  effect t (filter (λ x, id x ≠ i) (toasts st)).

(** The timer callbacks that have run by time [t], the first at [due]:
    each drops the oldest toast and the effect arms the next. *)
Fixpoint expire (t due : N) (ts : list Toast) : State :=
  match ts with
  | [] => {| toasts := []; timer := None |}
  | _ :: rest =>
      if (due <=? t)%N then expire t (due + 4000)%N rest
      else {| toasts := ts; timer := Some due |}
  end.

Definition advance (t : N) (st : State) : State :=
  match timer st with
  | Some due => expire t due (toasts st)
  | None => st
  end.

Inductive Event : Type :=
| Show (i : string) (message : string) (type : option HomePage.ToastType)
| Dismiss (i : string).

Definition step (st : State) (tev : N * Event) : State :=
  let st := advance tev.1 st in
  match tev.2 with
  | Show i message type => showToast tev.1 i message type st
  | Dismiss i => dismiss tev.1 i st
  end.

Definition initial : State := {| toasts := []; timer := None |}.

Definition run (evs : list (N * Event)) : State := foldl step initial evs.

(** The timer is pending exactly when there is a toast to remove. *)
Definition in_step (st : State) : Prop := timer st = None ↔ toasts st = [].

End ToastProvider.

(** ** [Navbar]: the theme *)

Module Navbar.

(** The [isDark] cell, whether [<html>] carries the class ["dark"], and
    [localStorage.getItem("theme")]. *)
Record State : Type := {
  isDark : bool;
  htmlDark : bool;
  stored : option string
}.

(** The mount effect, in a browser whose [matchMedia] query answers
    [prefersDark]. *)
Definition mount (prefersDark : bool) (st : State) : State :=
  let initial := default (if prefersDark then "dark" else "dark") (stored st) in
  let nextIsDark := bool_decide (initial = "dark") in
  {| isDark := nextIsDark; htmlDark := nextIsDark; stored := stored st |}.

Definition toggleTheme (st : State) : State :=
  let next := negb (isDark st) in
  let theme := if next then "dark" else "light" in
  {| isDark := next; htmlDark := next; stored := Some theme |}.

End Navbar.

(** ** [TestResults] *)

Module TestResults.

Record TestCaseResult : Type := {
  name : option string;
  status : option string;
  message : option string;
  error : option string
}.

Record TestResult : Type := {
  summary : option string;
  cases : option (list TestCaseResult)
}.

Inductive Icon : Type := CheckCircleIcon | ExclamationCircleIcon.

(** What a [CaseRow] puts on screen. *)
Record CaseRowView : Type := {
  icon : Icon;
  iconClass : string;
  title : string;
  messageLine : option string;
  errorLine : option string;
  chipClass : string;
  chipLabel : string
}.

(** What [TestResults] puts on screen: the placeholder, or the summary,
    the two counters (passed, failed) and the rows, the last two only when
    there is at least one case. *)
Inductive View : Type :=
| NoTests
| Results (summaryLine : string) (counters : option (nat * nat))
    (rows : list CaseRowView).

(** [x && <p>{x}</p>] for an optional string: shown when present and not
    empty. *)
Definition whenTruthy (x : option string) : option string :=
  match x with
  | Some s => if bool_decide (s = "") then None else Some s
  | None => None
  end.

Section WithHost.

(** [String.prototype.toLowerCase], a function of the host. *)
Variable toLowerCase : string → string.

Definition statusColor (status : option string) : string :=
  match whenTruthy status with
  | None => "text-slate-300"
  | Some s =>
      let lower := toLowerCase s in
      if bool_decide (lower = "passed") || bool_decide (lower = "success")
      then "text-emerald-400"
      else if bool_decide (lower = "failed") || bool_decide (lower = "error")
      then "text-rose-400"
      else "text-amber-300"
  end.

Definition statusChipClasses (status : option string) : string :=
  match whenTruthy status with
  | None => "bg-slate-800/80 text-slate-200"
  | Some s =>
      let lower := toLowerCase s in
      if bool_decide (lower = "passed") || bool_decide (lower = "success")
      then "bg-emerald-500/15 text-emerald-300 border-emerald-400/40"
      else if bool_decide (lower = "failed") || bool_decide (lower = "error")
      then "bg-rose-500/10 text-rose-300 border-rose-400/40"
      else "bg-amber-500/10 text-amber-300 border-amber-400/40"
  end.

Definition CaseRow (testCase : TestCaseResult) : CaseRowView :=
  let status := default "unknown" (status testCase) in
  let isPass := bool_decide (toLowerCase status = "passed")
                || bool_decide (status = "success") in
  {| icon := if isPass then CheckCircleIcon else ExclamationCircleIcon;
     iconClass := statusColor (Some status);
     title := default "Unnamed test case" (name testCase);
     messageLine := whenTruthy (message testCase);
     errorLine := whenTruthy (error testCase);
     chipClass := statusChipClasses (Some status);
     chipLabel := status |}.

(** The predicate of the [filter] that counts passed cases. *)
Definition countsAsPassed (c : TestCaseResult) : bool :=
  bool_decide (toLowerCase (default "" (status c)) = "passed")
  || bool_decide (status c = Some "success").

Definition TestResults (test : option TestResult) : View :=
  match test with
  | None => NoTests
  | Some test =>
      let cases := default [] (cases test) in
      let total := length cases in
      let passed := length (List.filter countsAsPassed cases) in
      Results (default "Test execution summary not provided." (summary test))
        (if (0 <? total)%nat then Some (passed, total - passed) else None)
        (if (0 <? total)%nat then map CaseRow cases else [])
  end.

End WithHost.

(** The ASCII part of [toLowerCase]. *)
Definition asciiLowerChar (a : Ascii.ascii) : Ascii.ascii :=
  let n := Ascii.N_of_ascii a in
  if (65 <=? n)%N && (n <=? 90)%N then Ascii.ascii_of_N (n + 32) else a.

Fixpoint asciiLower (s : string) : string :=
  match s with
  | EmptyString => EmptyString
  | String a rest => String (asciiLowerChar a) (asciiLower rest)
  end.

End TestResults.

(** ** [ChatInput]: [handleSubmit] *)

Module ChatInput.

(** The text of the textarea as its UTF-16 code units. *)
Abbreviation JsString := (list N).

(** The code units [String.prototype.trim] strips: ECMAScript's WhiteSpace
    and LineTerminator, all in the Basic Multilingual Plane. *)
Definition isWhiteSpace (c : N) : bool :=
  bool_decide (c ∈ [9; 10; 11; 12; 13; 32; 160; 5760; 8232; 8233; 8239;
                    8287; 12288; 65279]%N)
  || ((8192 <=? c)%N && (c <=? 8202)%N).

Fixpoint trimStart (s : JsString) : JsString :=
  match s with
  | c :: rest => if isWhiteSpace c then trimStart rest else s
  | [] => []
  end.

Definition trimEnd (s : JsString) : JsString :=
  reverse (trimStart (reverse s)).

Definition trim (s : JsString) : JsString := trimEnd (trimStart s).

(** [handleSubmit]: the argument [onSubmit] is called with, if it is
    called.  [problem] and [isLoading] are the values of the render the
    handler closes over. *)
Definition handleSubmit (problem : JsString) (isLoading : bool)
  : option JsString :=
  if bool_decide (trim problem = []) || isLoading then None
  else Some (trim problem).

(** The first code unit, if any, is not one [trim] strips. *)
Definition starts_clean (s : JsString) : Prop :=
  match s with
  | c :: _ => isWhiteSpace c = false
  | [] => True
  end.

End ChatInput.

(** ** More values used in the examples *)

Definition plain_options : RunCodePilotOptions :=
  {| problem := "two sum"; userId := None; timeoutMs := None; signal := None |}.

Definition signal_options : RunCodePilotOptions :=
  {| problem := "two sum"; userId := Some "u1"; timeoutMs := Some 5000%N;
     signal := Some fresh_signal |}.

Definition ok_response : Response :=
  {| res_status := 200; res_statusText := "OK" |}.

(** What [fetch] rejects with when the connection fails. *)
Definition failed_to_fetch : JsValue := ErrorObject "TypeError" "Failed to fetch".

(** What [res.json()] rejects with on a body that is not JSON. *)
Definition bad_json : JsValue :=
  ErrorObject "SyntaxError" "Unexpected token < in JSON at position 0".

(** While the call is in flight on a signal that was live at the start,
    that signal is still live and still carries the call's listener. *)
Definition subscribed (c : nat) (s : AbortSignal) (st : Call) : Prop :=
  cid st = c
  ∧ (is_settled st = false →
     parent st = Some {| aborted := false; reason := reason s;
                         listeners := listeners s ++ [c] |}).

(** Calls made one after the other with the same caller's signal, each
    given as (start time, controller, problem, events): the signal as the
    last call leaves it. *)
Definition callsInSequence (p : Platform) (sig : option AbortSignal)
    (calls : list (N * nat * string * list (N * Event))) : option AbortSignal :=
  foldl (λ sig call,
           parent (runCodePilot p call.1.1.1 call.1.1.2
                     {| problem := call.1.2; userId := None;
                        timeoutMs := None; signal := sig |} call.2))
    sig calls.

(** No event of the list is an abort by the caller. *)
Definition callerQuiet (evs : list (N * Event)) : Prop :=
  Forall (λ tev, match tev.2 with CallerAborts _ => False | _ => True end) evs.

(** * Properties *)

(** Membership of a concrete key in a concrete table, by evaluation. *)
Ltac decide_mem :=
  match goal with
  | |- ?G => apply (bool_decide_unpack G); vm_compute; exact I
  end.

Section Normalise.

Implicit Types (raw v : JsValue) (k : string).

Lemma bind_Normal {A B} (a : A) (f : A → Completion B) :
  (Normal a ≫= f) = f a.
Proof. reflexivity. Qed.

Lemma optChain_Normal raw k : optChain raw k = Normal (ownProp raw k).
Proof. by destruct raw. Qed.

Lemma coalesce_Normal (a b : JsValue) :
  (Normal a ?? Normal b) = Normal (orElse a b).
Proof. unfold coalesce, orElse. rewrite bind_Normal. by destruct (nullish a). Qed.

Lemma orElse_null_not_undefined v : orElse v JNull ≠ JUndefined.
Proof. by destruct v. Qed.

Lemma normaliseResponse_eq raw :
  normaliseResponse raw = Normal (JObj (normalised raw)).
Proof.
  unfold normaliseResponse.
  repeat (rewrite ?optChain_Normal, ?coalesce_Normal, ?bind_Normal).
  reflexivity.
Qed.

Lemma normalised_dom raw : dom (normalised raw) = list_to_set canonical_fields.
Proof.
  unfold normalised, canonical_fields.
  rewrite !dom_insert_L, ?dom_singleton_L, ?dom_empty_L. simpl. set_solver.
Qed.

Lemma normalised_lookup raw :
  normalised raw !! "request_id"
    = Some (orElse (ownProp raw "request_id") JNull)
  ∧ normalised raw !! "generated_code"
    = Some (orElse (ownProp raw "generated_code") JNull)
  ∧ normalised raw !! "execution_log"
    = Some (orElse (ownProp raw "execution_log") JNull).
Proof. repeat split; reflexivity. Qed.

Lemma normalised_lookup_aliased raw c a :
  (c, a) ∈ aliased_fields →
  normalised raw !! c
    = Some (orElse (orElse (ownProp raw c) (ownProp raw a)) JNull).
Proof.
  unfold aliased_fields. rewrite !elem_of_cons, elem_of_nil.
  intros [[= -> ->]|[[= -> ->]|[[= -> ->]|[[= -> ->]|[]]]]]; reflexivity.
Qed.

Lemma normalised_present raw k :
  k ∈ canonical_fields → ∃ v, normalised raw !! k = Some v ∧ v ≠ JUndefined.
Proof.
  unfold canonical_fields. rewrite !elem_of_cons, elem_of_nil.
  intros [->|[->|[->|[->|[->|[->|[->|[]]]]]]]];
    eexists; (split; [reflexivity | apply orElse_null_not_undefined]).
Qed.

Lemma normalised_absent raw k :
  k ∉ canonical_fields → normalised raw !! k = None.
Proof.
  intros Hk. apply not_elem_of_dom. rewrite normalised_dom.
  by rewrite elem_of_list_to_set.
Qed.

Lemma is_canonical_spec v :
  is_canonical v = true ↔
  ∃ m, v = JObj m ∧ dom m = list_to_set canonical_fields
       ∧ ∀ k, k ∈ canonical_fields → ∃ x, m !! k = Some x ∧ x ≠ JUndefined.
Proof.
  split.
  - destruct v as [| | | | | |m]; try discriminate. unfold is_canonical.
    rewrite andb_true_iff, bool_decide_eq_true, forallb_forall.
    intros [Hdom Hall]. exists m. repeat split; [done|].
    intros k Hk.
    assert (is_Some (m !! k)) as [x Hx].
    { apply elem_of_dom. rewrite Hdom. by apply elem_of_list_to_set. }
    exists x. split; [done|].
    apply list_elem_of_In, Hall in Hk. rewrite Hx in Hk. simpl in Hk.
    by destruct x.
  - intros (m & -> & Hdom & Hall). unfold is_canonical.
    rewrite andb_true_iff, bool_decide_eq_true, forallb_forall.
    split; [done|]. intros k Hk%list_elem_of_In.
    destruct (Hall k Hk) as (x & -> & Hx). simpl. by destruct x.
Qed.

Lemma normalised_is_canonical raw : is_canonical (JObj (normalised raw)) = true.
Proof.
  apply is_canonical_spec. exists (normalised raw).
  split; [done|]. split; [apply normalised_dom|]. apply normalised_present.
Qed.

(** Re-normalising a field that is already present and defined. *)
Lemma orElse_fixed x y : x ≠ JUndefined → nullish y = true →
  orElse (orElse x y) JNull = x.
Proof. by destruct x, y. Qed.

Lemma orElse_null_fixed x : x ≠ JUndefined → orElse x JNull = x.
Proof. by destruct x. Qed.

Lemma normalised_canonical m :
  dom m = list_to_set canonical_fields →
  (∀ k, k ∈ canonical_fields → ∃ x, m !! k = Some x ∧ x ≠ JUndefined) →
  normalised (JObj m) = m.
Proof.
  intros Hdom Hall. apply map_eq. intros i.
  assert (∀ a, a ∉ canonical_fields → nullish (ownProp (JObj m) a) = true)
    as Halias.
  { intros a Ha. simpl.
    assert (m !! a = None) as ->; [|done].
    apply not_elem_of_dom. rewrite Hdom. by rewrite elem_of_list_to_set. }
  destruct (decide (i ∈ canonical_fields)) as [Hi|Hi].
  - destruct (Hall i Hi) as (x & Hx & Hdef). rewrite Hx.
    assert (ownProp (JObj m) i = x) as Hown by (simpl; by rewrite Hx).
    revert Hi Hx Hown. unfold canonical_fields.
    rewrite !elem_of_cons, elem_of_nil.
    intros [->|[->|[->|[->|[->|[->|[->|[]]]]]]]] Hx Hown.
    + destruct (normalised_lookup (JObj m)) as (-> & _ & _).
      by rewrite Hown, orElse_null_fixed.
    + rewrite (normalised_lookup_aliased _ _ "intent_classification"),
        Hown, orElse_fixed; [done..| |decide_mem].
      apply Halias. decide_mem.
    + rewrite (normalised_lookup_aliased _ _ "engineering_plan"),
        Hown, orElse_fixed; [done..| |decide_mem].
      apply Halias. decide_mem.
    + rewrite (normalised_lookup_aliased _ _ "test_results"),
        Hown, orElse_fixed; [done..| |decide_mem].
      apply Halias. decide_mem.
    + rewrite (normalised_lookup_aliased _ _ "debug_analysis"),
        Hown, orElse_fixed; [done..| |decide_mem].
      apply Halias. decide_mem.
    + destruct (normalised_lookup (JObj m)) as (_ & -> & _).
      by rewrite Hown, orElse_null_fixed.
    + destruct (normalised_lookup (JObj m)) as (_ & _ & ->).
      by rewrite Hown, orElse_null_fixed.
  - rewrite normalised_absent by done. symmetry.
    apply not_elem_of_dom. rewrite Hdom. by rewrite elem_of_list_to_set.
Qed.

End Normalise.

(** ** The machine *)

Section Machine.

Context (p : Platform).
Implicit Types (st : Call) (o : Completion JsValue) (ev : Event) (t : N).

(** The [catch] clause never completes normally, and what it raises is
    always an instance of the module's class. *)
Lemma catchClause_classifies error :
  ∃ e, catchClause error = Throws (ThrowCodePilotError e).
Proof.
  unfold catchClause.
  destruct error as [v|e]; unfold caughtProp.
  - rewrite !optChain_Normal, !bind_Normal.
    destruct (is_AbortError_name (ownProp v "name")); simpl; eauto.
  - simpl. eauto.
Qed.

(** An instance of the module's class is rethrown as it is. *)
Lemma catchClause_CodePilotError e :
  catchClause (ThrowCodePilotError e) = Throws (ThrowCodePilotError e).
Proof. reflexivity. Qed.

Lemma settle_wired c st : wired (settle c st).
Proof. reflexivity. Qed.

Lemma abortController_wired r st : wired st → wired (abortController p r st).
Proof.
  unfold abortController. intros Hw.
  destruct (ctl_aborted (controller st)) eqn:Hab; [done|].
  unfold wired in Hw. destruct (phase st) eqn:Hph;
    [apply settle_wired..|].
  unfold wired. simpl. by rewrite ?Hph.
Qed.

Lemma fireTimer_wired st : wired st → wired (fireTimer p st).
Proof.
  unfold fireTimer. intros Hw. destruct (timer st) eqn:Ht; [|done].
  unfold abortController. simpl.
  unfold wired in Hw. rewrite Ht in Hw.
  destruct (phase st) eqn:Hph; [| |done].
  - destruct Hw as [-> _]. rewrite ?Hph. apply settle_wired.
  - destruct Hw as [-> _]. rewrite ?Hph. apply settle_wired.
Qed.

Lemma callerAborts_wired r st : wired st → wired (callerAborts p r st).
Proof.
  unfold callerAborts. intros Hw.
  destruct (parent st) as [s|]; [|done].
  destruct (aborted s); [done|].
  case_bool_decide; [apply abortController_wired|]; apply Hw.
Qed.

Lemma handle_wired ev st : wired st → wired (handle p ev st).
Proof.
  intros Hw. destruct ev; simpl.
  - by apply callerAborts_wired.
  - destruct (phase st) eqn:Hph; try done.
    destruct (checkStatus res); [|apply settle_wired].
    unfold wired in Hw. rewrite Hph in Hw. exact Hw.
  - by destruct (phase st).
  - by destruct (phase st).
  - by destruct (phase st).
Qed.

Lemma tick_wired t st : wired st → wired (tick p t st).
Proof.
  unfold tick. intros Hw. destruct (timer st) eqn:Ht; [|done].
  destruct (_ <=? _)%N; [by apply fireTimer_wired|done].
Qed.

Lemma step_wired st tev : wired st → wired (step p st tev).
Proof. intros. by apply handle_wired, tick_wired. Qed.

Lemma start_wired t0 c opts : wired (start p t0 c opts).
Proof.
  unfold start. destruct (mergeAbortSignals p c (signal opts)) as [ctl par].
  destruct (ctl_aborted ctl) eqn:Hab; [apply settle_wired|].
  unfold wired. simpl. eauto.
Qed.

Lemma foldl_step_wired evs st : wired st → wired (foldl (step p) st evs).
Proof.
  revert st. induction evs as [|tev evs IH]; intros st Hw; [done|].
  simpl. by apply IH, step_wired.
Qed.

Lemma exec_wired t0 c opts evs : wired (exec p t0 c opts evs).
Proof. apply foldl_step_wired, start_wired. Qed.

Lemma abortController_settled r o st :
  settled_with o st → settled_with o (abortController p r st).
Proof.
  unfold abortController, settled_with. intros [Hph Ht].
  destruct (ctl_aborted _); [done|]. by rewrite Hph.
Qed.

Lemma fireTimer_settled o st : settled_with o st → fireTimer p st = st.
Proof. unfold fireTimer. by intros [_ ->]. Qed.

Lemma step_settled o st tev :
  settled_with o st → settled_with o (step p st tev).
Proof.
  intros Hs. unfold step, tick. destruct Hs as [Hph Ht]. rewrite Ht.
  destruct tev as [t [r|res|err|raw|err]]; unfold handle; simpl;
    rewrite ?Hph; try done.
  unfold callerAborts. destruct (parent st) as [s|]; [|done].
  destruct (aborted s); [done|].
  case_bool_decide; [apply abortController_settled|]; done.
Qed.

Lemma foldl_step_settled o evs st :
  settled_with o st → settled_with o (foldl (step p) st evs).
Proof.
  revert st. induction evs as [|tev evs IH]; intros st Hs; [done|].
  simpl. by apply IH, step_settled.
Qed.

(** No step sends anything: the request log is fixed by [start]. *)
Lemma abortController_requests r st :
  requests (abortController p r st) = requests st.
Proof.
  unfold abortController. destruct (ctl_aborted _); [done|].
  by destruct (phase st).
Qed.

Lemma step_requests st tev : requests (step p st tev) = requests st.
Proof.
  unfold step.
  assert (requests (tick p tev.1 st) = requests st) as Htick.
  { unfold tick, fireTimer. destruct (timer st); [|done].
    destruct (_ <=? _)%N; [|done]. by rewrite abortController_requests. }
  rewrite <- Htick. generalize (tick p tev.1 st). intros st'.
  destruct tev as [t [r|res|err|raw|err]]; unfold handle; simpl.
  - unfold callerAborts. destruct (parent st') as [s|]; [|done].
    destruct (aborted s); [done|].
    case_bool_decide; [by rewrite abortController_requests|done].
  - destruct (phase st'); try done. by destruct (checkStatus res).
  - by destruct (phase st').
  - by destruct (phase st').
  - by destruct (phase st').
Qed.

Lemma foldl_step_requests evs st :
  requests (foldl (step p) st evs) = requests st.
Proof.
  revert st. induction evs as [|tev evs IH]; intros st; [done|].
  simpl. by rewrite IH, step_requests.
Qed.

(** An aborted controller stays as it is. *)
Lemma abortController_aborted r st :
  ctl_aborted (controller st) = true → abortController p r st = st.
Proof. unfold abortController. by intros ->. Qed.

Lemma step_controller_aborted o st tev :
  settled_with o st → ctl_aborted (controller st) = true →
  controller (step p st tev) = controller st.
Proof.
  intros [Hph Ht] Hab. unfold step, tick. rewrite Ht.
  destruct tev as [t [r|res|err|raw|err]]; unfold handle; simpl;
    rewrite ?Hph; try done.
  unfold callerAborts. destruct (parent st) as [s|]; [|done].
  destruct (aborted s); [done|].
  case_bool_decide; [|done]. by rewrite abortController_aborted.
Qed.

Lemma foldl_step_controller_aborted o evs st :
  settled_with o st → ctl_aborted (controller st) = true →
  controller (foldl (step p) st evs) = controller st.
Proof.
  revert st. induction evs as [|tev evs IH]; intros st Hs Hab; [done|].
  simpl. rewrite IH.
  - by eapply step_controller_aborted.
  - by apply step_settled.
  - by erewrite step_controller_aborted.
Qed.

Lemma abortController_timer r st : timer_kept st (abortController p r st).
Proof.
  unfold abortController, timer_kept. destruct (ctl_aborted _); [by left|].
  destruct (phase st); simpl; auto.
Qed.

Lemma fireTimer_timer st : timer (fireTimer p st) = None.
Proof.
  unfold fireTimer. destruct (timer st) eqn:Ht; [|done].
  destruct (abortController_timer (ThrowVal (JStr "Request timed out"))
    {| cid := cid st; parent := parent st; controller := controller st;
       timer := None; requests := requests st; phase := phase st |})
    as [->| ->]; done.
Qed.

Lemma step_timer st tev : timer_kept st (step p st tev).
Proof.
  unfold step.
  assert (timer_kept st (tick p tev.1 st)) as Htick.
  { unfold tick, timer_kept. destruct (timer st) eqn:Ht; [|by left].
    destruct (_ <=? _)%N; [|by left]. right. apply fireTimer_timer. }
  assert (∀ st', timer_kept st' (handle p tev.2 st')) as Hhandle.
  { intros st'. destruct tev as [t [r|res|err|raw|err]]; unfold handle; simpl.
    - unfold callerAborts. destruct (parent st') as [s|]; [|by left].
      destruct (aborted s); [by left|].
      case_bool_decide; [|by left].
      match goal with
      | |- timer_kept _ (abortController _ ?r ?x) =>
          destruct (abortController_timer r x) as [Hk|Hk]
      end; unfold timer_kept; rewrite Hk; auto.
    - destruct (phase st'); try by left.
      destruct (checkStatus res); [by left|by right].
    - destruct (phase st'); by (left + right).
    - destruct (phase st'); by (left + right).
    - destruct (phase st'); by (left + right). }
  destruct Htick as [Ht|Ht], (Hhandle (tick p tev.1 st)) as [Hh|Hh];
    unfold timer_kept; rewrite ?Hh, ?Ht; auto.
Qed.

Lemma exec_timer t0 c opts evs :
  timer (exec p t0 c opts evs) = None
  ∨ timer (exec p t0 c opts evs)
    = Some (t0 + timerDelay p (default 60000 (timeoutMs opts)))%N.
Proof.
  unfold exec.
  assert (timer (start p t0 c opts) = None
          ∨ timer (start p t0 c opts)
            = Some (t0 + timerDelay p (default 60000 (timeoutMs opts)))%N)
    as Hstart.
  { unfold start. destruct (mergeAbortSignals _ _ _) as [ctl par].
    destruct (ctl_aborted ctl); simpl; auto. }
  revert Hstart. generalize (start p t0 c opts).
  induction evs as [|tev evs IH]; intros st Hst; [done|].
  simpl. apply IH.
  destruct (step_timer st tev) as [->| ->]; auto.
Qed.

(** *** The subscription to the caller's signal *)

Lemma abortController_parent r st :
  parent (abortController p r st) = parent st.
Proof.
  unfold abortController. destruct (ctl_aborted _); [done|].
  by destruct (phase st).
Qed.

Lemma fireTimer_parent st : parent (fireTimer p st) = parent st.
Proof.
  unfold fireTimer. destruct (timer st); [|done].
  by rewrite abortController_parent.
Qed.

Lemma subscription_abort c s s' r :
  subscription c s s' → aborted s' = false →
  subscription c s {| aborted := true; reason := r; listeners := [] |}.
Proof.
  unfold subscription. destruct (aborted s) eqn:Hs.
  - intros -> Hs'. congruence.
  - done.
Qed.

Lemma step_tracks c sig st tev : tracks c sig st → tracks c sig (step p st tev).
Proof.
  unfold step.
  assert (parent (tick p tev.1 st) = parent st) as Htick.
  { unfold tick. destruct (timer st); [|done].
    destruct (_ <=? _)%N; [apply fireTimer_parent|done]. }
  unfold tracks at 1. rewrite <- Htick. generalize (tick p tev.1 st).
  intros st' Htr.
  destruct tev as [t [r|res|err|raw|err]]; unfold handle; simpl.
  - unfold callerAborts, tracks.
    destruct sig as [s|], (parent st') as [s'|] eqn:Hp; try done;
      [|by rewrite Hp].
    destruct (aborted s') eqn:Hab; [by rewrite Hp|].
    case_bool_decide; rewrite ?abortController_parent; simpl;
      by eapply subscription_abort.
  - unfold tracks. destruct (phase st'); try done.
    by destruct (checkStatus res).
  - unfold tracks. by destruct (phase st').
  - unfold tracks. by destruct (phase st').
  - unfold tracks. by destruct (phase st').
Qed.

Lemma start_tracks t0 c opts : tracks c (signal opts) (start p t0 c opts).
Proof.
  unfold start, mergeAbortSignals, tracks, subscription.
  destruct (signal opts) as [s|]; [|done].
  destruct (aborted s) eqn:Hs; simpl; by rewrite ?Hs.
Qed.

Lemma exec_tracks t0 c opts evs :
  tracks c (signal opts) (exec p t0 c opts evs).
Proof.
  unfold exec. generalize (start_tracks t0 c opts).
  generalize (start p t0 c opts).
  induction evs as [|tev evs IH]; intros st Hst; [done|].
  simpl. by apply IH, step_tracks.
Qed.

(** At the end of the run the promise has settled. *)
Lemma runCodePilot_settles t0 c opts evs :
  is_settled (runCodePilot p t0 c opts evs) = true
  ∧ timer (runCodePilot p t0 c opts evs) = None.
Proof.
  unfold runCodePilot. split; [|apply fireTimer_timer].
  pose proof (exec_wired t0 c opts evs) as Hw.
  pose proof (fireTimer_wired _ Hw) as Hw'.
  pose proof (fireTimer_timer (exec p t0 c opts evs)) as Ht.
  unfold wired in Hw'. unfold is_settled.
  destruct (phase (fireTimer p (exec p t0 c opts evs))); [| |done];
    destruct Hw' as [_ [d Hd]]; congruence.
Qed.

(** *** Every outcome is classified *)

Lemma settle_classified c st :
  match c with Normal r => is_canonical r = true | Throws _ => True end →
  classified (settle c st).
Proof.
  unfold classified, settle. simpl. destruct c as [r|error]; [done|].
  intros _. by destruct (catchClause_classifies error) as [e ->].
Qed.

Lemma abortController_classified r st :
  classified st → classified (abortController p r st).
Proof.
  unfold abortController. intros Hc.
  destruct (ctl_aborted _); [done|].
  destruct (phase st) eqn:Hph; [by apply settle_classified..|].
  unfold classified in *. simpl. by rewrite Hph in Hc.
Qed.

Lemma fireTimer_classified st : classified st → classified (fireTimer p st).
Proof.
  unfold fireTimer. intros Hc. destruct (timer st); [|done].
  by apply abortController_classified.
Qed.

Lemma step_classified st tev : classified st → classified (step p st tev).
Proof.
  unfold step. intros Hc.
  assert (classified (tick p tev.1 st)) as Htick.
  { unfold tick. destruct (timer st); [|done].
    destruct (_ <=? _)%N; [by apply fireTimer_classified|done]. }
  revert Htick. generalize (tick p tev.1 st). clear st Hc. intros st Hc.
  destruct tev as [t [r|res|err|raw|err]]; unfold handle; simpl.
  - unfold callerAborts. destruct (parent st) as [s|]; [|done].
    destruct (aborted s); [done|].
    case_bool_decide; [apply abortController_classified|]; done.
  - destruct (phase st) eqn:Hph; try done.
    destruct (checkStatus res); [|by apply settle_classified].
    unfold classified. by simpl.
  - destruct (phase st); try done. by apply settle_classified.
  - destruct (phase st); try done. apply settle_classified.
    rewrite normaliseResponse_eq. apply normalised_is_canonical.
  - destruct (phase st); try done. by apply settle_classified.
Qed.

(** [runCodePilot] ends fulfilled with a canonical response or rejected
    with a [CodePilotError]; nothing else reaches the caller. *)
Lemma runCodePilot_classified t0 c opts evs :
  classified (runCodePilot p t0 c opts evs).
Proof.
  unfold runCodePilot, exec. apply fireTimer_classified.
  assert (classified (start p t0 c opts)) as Hstart.
  { unfold start. destruct (mergeAbortSignals _ _ _) as [ctl par].
    destruct (ctl_aborted ctl); [by apply settle_classified|done]. }
  revert Hstart. generalize (start p t0 c opts).
  induction evs as [|tev evs IH]; intros st Hst; [done|].
  simpl. by apply IH, step_classified.
Qed.

End Machine.

(** * The claims *)

Section Claims.

Implicit Types (raw v : JsValue) (p : Platform).

Lemma ownProp_orElse_null x f : ownProp (orElse x JNull) f = ownProp x f.
Proof. by destruct x. Qed.

(** Normalisation lands in the canonical shape. *)
Lemma normaliseResponse_canonical raw :
  ∃ r, normaliseResponse raw = Normal r ∧ is_canonical r = true.
Proof.
  exists (JObj (normalised raw)).
  split; [apply normaliseResponse_eq | apply normalised_is_canonical].
Qed.

(** C4: for every raw payload, normalisation returns an object whose keys
    are exactly the canonical ones (the six of the data model and
    [generated_code]), each bound to a value that is not [undefined]
    (at worst [null]); no top-level key is omitted. *)
Theorem normaliseResponse_fields_present raw :
  ∃ m, normaliseResponse raw = Normal (JObj m)
       ∧ dom m = list_to_set canonical_fields
       ∧ Forall (λ k, ∃ x, m !! k = Some x ∧ x ≠ JUndefined) canonical_fields.
Proof.
  exists (normalised raw). split; [apply normaliseResponse_eq|].
  split; [apply normalised_dom|].
  apply Forall_forall. intros k Hk. by apply normalised_present.
Qed.

(** C10: normalisation is total and never raises, whatever the raw value
    ([null], [undefined], primitives, arrays, objects of any shape); the
    result carries [generated_code], read from the key [generated_code]
    alone and [null] when that is missing or nullish. *)
Theorem normaliseResponse_total raw :
  ∃ m, normaliseResponse raw = Normal (JObj m)
       ∧ m !! "generated_code"
         = Some (orElse (ownProp raw "generated_code") JNull).
Proof.
  exists (normalised raw). split; [apply normaliseResponse_eq | reflexivity].
Qed.

(** C2, as the code has it: [execution_log] is always present, being the
    raw [execution_log] when that is neither missing nor [null] and [null]
    otherwise (never an empty sequence supplied by normalisation); the
    nested fields [alternative_approaches], [cases], [issues] and
    [suggestions] read in the result exactly as they read in the raw
    sub-object chosen for their parent, so a missing one stays missing. *)
Theorem normaliseResponse_sequences_passthrough raw :
  ∃ m, normaliseResponse raw = Normal (JObj m)
       ∧ m !! "execution_log"
         = Some (orElse (ownProp raw "execution_log") JNull)
       ∧ Forall (λ '(owner, alias, field),
                   ownProp (ownProp (JObj m) owner) field
                   = ownProp (orElse (ownProp raw owner) (ownProp raw alias))
                       field)
           nested_sequence_fields.
Proof.
  exists (normalised raw). split; [apply normaliseResponse_eq|].
  split; [reflexivity|].
  unfold nested_sequence_fields.
  repeat (apply Forall_cons; split; [|]); [..|by apply Forall_nil];
    cbn [ownProp];
    match goal with
    | |- ownProp (default _ (_ !! ?c)) _ = ownProp (orElse _ (ownProp _ ?a)) _ =>
        rewrite (normalised_lookup_aliased raw c a) by decide_mem
    end; apply ownProp_orElse_null.
Qed.

(** C2 fails as stated: for [{"test_result":{"summary":"ok"}}] the result
    has [execution_log] equal to [null] and no [cases] in [test_result];
    neither is a sequence. *)
Lemma normaliseResponse_sequences_counterexample :
  ∃ r, normaliseResponse sparse_body = Normal r
       ∧ ownProp r "execution_log" = JNull
       ∧ is_sequence (ownProp r "execution_log") = false
       ∧ ownProp (ownProp r "test_result") "cases" = JUndefined
       ∧ is_sequence (ownProp (ownProp r "test_result") "cases") = false.
Proof. eexists. split; [apply normaliseResponse_eq|]. by vm_compute. Qed.

(** C7: normalisation is idempotent: a value already in canonical shape
    (exactly the canonical keys, none [undefined]) is returned
    unchanged. *)
Theorem normaliseResponse_idempotent v :
  is_canonical v = true → normaliseResponse v = Normal v.
Proof.
  intros (m & -> & Hdom & Hall)%is_canonical_spec.
  rewrite normaliseResponse_eq. by rewrite normalised_canonical.
Qed.

Lemma normaliseResponse_idempotent_witness :
  is_canonical canonical_body = true
  ∧ normaliseResponse canonical_body = Normal canonical_body.
Proof.
  split; [vm_compute; reflexivity|].
  apply (normaliseResponse_idempotent canonical_body).
  vm_compute; reflexivity.
Defined.

(** C9: the streaming operation fails with the fixed "not enabled" error
    for every input and sends nothing. *)
Theorem runCodePilotStream_unavailable
    (opts : RunCodePilotOptions) (handlers : CodePilotStreamHandlers)
    (sent : list Request) :
  ∃ e, runCodePilotStream opts handlers sent
       = (Throws (ThrowCodePilotError e), sent)
       ∧ message e = "Streaming API is not enabled yet."
       ∧ status e = None.
Proof.
  exists streaming_error. unfold runCodePilotStream, streaming_error.
  repeat split.
Qed.

(** C8: when the response arrives while the call is waiting for it, that
    is before the timeout is due (on the delay the host's [setTimeout]
    really uses), and its status is outside 200-299, the call fails with the error built
    from the numeric status and the status text, carrying the status. *)
Theorem runCodePilot_http_error p t0 c opts pre t res rest :
  phase (exec p t0 c opts pre) = AwaitFetch →
  (t < t0 + timerDelay p (default 60000 (timeoutMs opts)))%N →
  res_ok res = false →
  phase (runCodePilot p t0 c opts (pre ++ (t, FetchResolves res) :: rest))
  = Settled (Throws (ThrowCodePilotError
                       (new_CodePilotError
                          ("Backend error: " ++ pretty (res_status res) ++ " "
                             ++ res_statusText res)
                          (Some (res_status res))))).
Proof.
  intros Hph Ht Hok. fold (http_error res). unfold runCodePilot.
  assert (settled_with (Throws (ThrowCodePilotError (http_error res)))
            (exec p t0 c opts (pre ++ (t, FetchResolves res) :: rest)))
    as Hs.
  { unfold exec in *. rewrite foldl_app. simpl.
    apply foldl_step_settled.
    pose proof (exec_wired p t0 c opts pre) as Hw.
    pose proof (exec_timer p t0 c opts pre) as Hd.
    unfold exec in *. revert Hph Hw Hd.
    generalize (foldl (step p) (start p t0 c opts) pre). intros st Hph Hw Hd.
    unfold wired in Hw. rewrite Hph in Hw. destruct Hw as [_ [d Hsome]].
    destruct Hd as [Hd|Hd]; [congruence|].
    unfold step, tick. simpl. rewrite Hd.
    assert ((t0 + timerDelay p (default 60000 (timeoutMs opts)) <=? t)%N
            = false) as ->
      by (apply N.leb_gt; exact Ht).
    unfold handle. rewrite Hph. unfold checkStatus. rewrite Hok. simpl.
    split; reflexivity. }
  rewrite (fireTimer_settled p _ _ Hs). apply Hs.
Qed.

Lemma runCodePilot_http_error_500 :
  phase (exec whatwg 0 7
           {| problem := "two sum"; userId := None; timeoutMs := None;
              signal := None |} [])
  = AwaitFetch
  ∧ (120 < 0 + timerDelay whatwg (default 60000 None))%N
  ∧ res_ok {| res_status := 500;
              res_statusText := "Internal Server Error" |} = false
  ∧ phase (runCodePilot whatwg 0 7
             {| problem := "two sum"; userId := None; timeoutMs := None;
                signal := None |}
             ([] ++ (120%N, FetchResolves
                              {| res_status := 500;
                                 res_statusText := "Internal Server Error" |})
                 :: [(450%N, JsonResolves (JObj ∅))]))
    = Settled (Throws (ThrowCodePilotError
                         (new_CodePilotError
                            "Backend error: 500 Internal Server Error"
                            (Some 500%N)))).
Proof.
  split; [reflexivity|]. split; [reflexivity|]. split; [reflexivity|].
  apply (runCodePilot_http_error whatwg 0 7
           {| problem := "two sum"; userId := None; timeoutMs := None;
              signal := None |} [] 120
           {| res_status := 500; res_statusText := "Internal Server Error" |}
           [(450%N, JsonResolves (JObj ∅))]);
    reflexivity.
Defined.

(** C6: each aliased field takes the value under its primary key when that
    is neither missing nor [null], otherwise the value under its legacy
    alias when that is neither missing nor [null], otherwise [null]; and a
    200 response with body
    [{"request_id":"r1","test_results":{"summary":"ok","cases":[]}}]
    fulfils the call with [test_result.summary] equal to ["ok"] and
    [test_result.cases] the empty sequence. *)
Theorem normaliseResponse_alias_precedence :
  (∀ raw, ∃ m, normaliseResponse raw = Normal (JObj m)
     ∧ Forall (λ '(primary, alias),
                 m !! primary
                 = Some (if nullish (ownProp raw primary)
                         then if nullish (ownProp raw alias)
                              then JNull
                              else ownProp raw alias
                         else ownProp raw primary))
         aliased_fields)
  ∧ (∀ p c problem userId statusText,
       ∃ r test_result,
         phase (runCodePilot p 0 c
                  {| problem := problem; userId := userId;
                     timeoutMs := None; signal := None |}
                  [ (120%N, FetchResolves {| res_status := 200;
                                             res_statusText := statusText |});
                    (450%N, JsonResolves legacy_body) ])
         = Settled (Normal r)
         ∧ getMember r "test_result" = Normal test_result
         ∧ getMember test_result "summary" = Normal (JStr "ok")
         ∧ getMember test_result "cases" = Normal (JArr [])).
Proof.
  split.
  - intros raw. exists (normalised raw).
    split; [apply normaliseResponse_eq|].
    apply Forall_forall. intros [primary alias] Hin.
    rewrite (normalised_lookup_aliased raw primary alias Hin).
    unfold orElse.
    destruct (nullish (ownProp raw primary)) eqn:Hp; [|by rewrite ?Hp].
    by destruct (nullish (ownProp raw alias)) eqn:Ha; rewrite ?Ha.
  - intros p c problem userId statusText.
    exists (JObj (normalised legacy_body)),
           (JObj {[ "summary" := JStr "ok"; "cases" := JArr [] ]}).
    repeat split; vm_compute; reflexivity.
Qed.

(** C1, evaluated on the code.  On a host that follows the Fetch standard
    the rejection caused by the timeout is the string ["Request timed out"]
    itself, which has no [name]; the [catch] clause therefore reports the
    generic network failure, exactly as it does for a caller who aborts
    with a string reason.  On a host that rejects with a fresh [AbortError]
    both cases end with that error's fixed message.  In neither case does
    the message carry the reason. *)
Theorem runCodePilot_timeout_reason_lost t0 c problem userId timeoutMs :
  phase (runCodePilot whatwg t0 c
           {| problem := problem; userId := userId; timeoutMs := timeoutMs;
              signal := None |} [])
  = Settled (Throws (ThrowCodePilotError network_error))
  ∧ (∀ t txt, phase (runCodePilot whatwg t0 c
           {| problem := problem; userId := userId; timeoutMs := timeoutMs;
              signal := Some fresh_signal |}
           [(t, CallerAborts (ThrowVal (JStr txt)))])
      = Settled (Throws (ThrowCodePilotError network_error)))
  ∧ phase (runCodePilot legacy t0 c
           {| problem := problem; userId := userId; timeoutMs := timeoutMs;
              signal := None |} [])
    = Settled (Throws (ThrowCodePilotError
                         (new_CodePilotError "The user aborted a request."
                            None)))
  ∧ (∀ t txt, phase (runCodePilot legacy t0 c
           {| problem := problem; userId := userId; timeoutMs := timeoutMs;
              signal := Some fresh_signal |}
           [(t, CallerAborts (ThrowVal (JStr txt)))])
      = Settled (Throws (ThrowCodePilotError
                           (new_CodePilotError "The user aborted a request."
                              None)))).
Proof.
  repeat split; try reflexivity; intros t txt;
    unfold runCodePilot, exec, start; simpl;
    unfold step, tick; simpl;
    destruct (_ <=? _)%N;
    unfold handle, callerAborts, fireTimer; simpl;
    (case_bool_decide as Hm; [reflexivity | exfalso; apply Hm; set_solver]).
Qed.

(** What the [catch] clause does recognise: a caller who aborted without
    giving a reason.  The default reason is an [AbortError], and the call
    fails with that error's message. *)
Lemma runCodePilot_pre_aborted_default_reason
    t0 c problem userId timeoutMs msg l evs :
  phase (runCodePilot whatwg t0 c
           {| problem := problem; userId := userId; timeoutMs := timeoutMs;
              signal := Some {| aborted := true;
                                reason := ThrowVal (ErrorObject "AbortError" msg);
                                listeners := l |} |} evs)
  = Settled (Throws (ThrowCodePilotError (new_CodePilotError msg None))).
Proof.
  unfold runCodePilot, exec.
  match goal with
  | |- phase (fireTimer _ (foldl _ ?st0 _)) = Settled ?o =>
      assert (settled_with o st0) as Hs by (split; reflexivity)
  end.
  apply (foldl_step_settled whatwg _ evs) in Hs.
  rewrite (fireTimer_settled whatwg _ _ Hs). apply Hs.
Qed.

(** A signal from [AbortSignal.timeout] that has expired carries a
    [TimeoutError]; the call reports a network failure. *)
Example runCodePilot_pre_aborted_TimeoutError :
  phase (runCodePilot whatwg 0 7
           {| problem := "two sum"; userId := None; timeoutMs := None;
              signal := Some {| aborted := true;
                                reason := ThrowVal (ErrorObject "TimeoutError"
                                                      "signal timed out");
                                listeners := [] |} |} [])
  = Settled (Throws (ThrowCodePilotError network_error)).
Proof. vm_compute. reflexivity. Qed.

(** C5, evaluated on the code: a caller's signal already aborted with a
    string reason.  Nothing is sent and the controller is aborted with
    the same reason at once, but the failure is the generic network
    failure, not a cancellation. *)
Theorem runCodePilot_pre_aborted_string_reason
    t0 c problem userId timeoutMs txt l evs :
  let st := runCodePilot whatwg t0 c
              {| problem := problem; userId := userId; timeoutMs := timeoutMs;
                 signal := Some {| aborted := true;
                                   reason := ThrowVal (JStr txt);
                                   listeners := l |} |} evs in
  requests st = []
  ∧ controller st = {| ctl_aborted := true; ctl_reason := ThrowVal (JStr txt) |}
  ∧ phase st = Settled (Throws (ThrowCodePilotError network_error)).
Proof.
  cbv zeta. unfold runCodePilot, exec.
  match goal with
  | |- context [foldl _ ?st0 evs] =>
      assert (settled_with (Throws (ThrowCodePilotError network_error)) st0)
        as Hs0 by (split; reflexivity);
      assert (ctl_aborted (controller st0) = true) as Hab by reflexivity;
      pose proof (foldl_step_controller_aborted whatwg _ evs _ Hs0 Hab) as Hc;
      pose proof (foldl_step_requests whatwg evs st0) as Hr;
      pose proof (foldl_step_settled whatwg _ evs _ Hs0) as Hs
  end.
  rewrite (fireTimer_settled whatwg _ _ Hs).
  split; [by rewrite Hr|]. split; [by rewrite Hc|]. apply Hs.
Qed.

(** C3, as the code has it: the timeout is pending exactly while the call
    is in flight, so on every exit path it is cleared by the time the call
    returns, and every call does return; the subscription to the caller's
    signal is one-shot and the call never removes it: it is dropped when
    the caller's signal fires, and is otherwise still registered on that
    signal after the call has returned. *)
Theorem runCodePilot_timer_released p t0 c opts evs :
  (let st := exec p t0 c opts evs in
   if is_settled st then timer st = None else is_Some (timer st))
  ∧ (let st := runCodePilot p t0 c opts evs in
     is_settled st = true ∧ timer st = None ∧ tracks c (signal opts) st).
Proof.
  split; cbv zeta.
  - pose proof (exec_wired p t0 c opts evs) as Hw.
    unfold wired in Hw. unfold is_settled.
    destruct (phase (exec p t0 c opts evs)); [apply Hw..|done].
  - destruct (runCodePilot_settles p t0 c opts evs) as [Hs Ht].
    split; [done|]. split; [done|].
    pose proof (exec_tracks p t0 c opts evs) as Htr.
    unfold runCodePilot, tracks in *. by rewrite fireTimer_parent.
Qed.

(** C3 fails as stated: a call given a live signal and answered with a
    200 response returns with its listener still registered on that
    signal. *)
Lemma runCodePilot_listener_outlives_call :
  let st := runCodePilot whatwg 0 7
              {| problem := "two sum"; userId := None; timeoutMs := None;
                 signal := Some fresh_signal |}
              [ (120%N, FetchResolves {| res_status := 200;
                                         res_statusText := "OK" |});
                (450%N, JsonResolves legacy_body) ] in
  phase st = Settled (Normal (JObj (normalised legacy_body)))
  ∧ timer st = None
  ∧ listeners <$> parent st = Some [7].
Proof. cbv zeta. repeat split; vm_compute; reflexivity. Qed.

(** A second call on the same signal adds a second listener. *)
Example listeners_accumulate :
  let run c sig :=
    runCodePilot whatwg 0 c
      {| problem := "two sum"; userId := None; timeoutMs := None;
         signal := sig |}
      [ (120%N, FetchResolves {| res_status := 200; res_statusText := "OK" |});
        (450%N, JsonResolves legacy_body) ] in
  listeners <$> parent (run 8 (parent (run 7 (Some fresh_signal))))
  = Some [7; 8].
Proof. vm_compute. reflexivity. Qed.

End Claims.

(** * Further properties of the call *)

Section MachineMore.

Context (p : Platform).
Implicit Types (st : Call) (o : Completion JsValue) (ev : Event) (t : N).


Lemma fireTimer_requests st : requests (fireTimer p st) = requests st.
Proof.
  unfold fireTimer. destruct (timer st); [|done].
  by rewrite abortController_requests.
Qed.

(** A call still in flight has a live controller and its timeout pending
    at the deadline fixed by [start]. *)
Lemma exec_unsettled t0 c opts evs :
  is_settled (exec p t0 c opts evs) = false →
  timer (exec p t0 c opts evs)
  = Some (t0 + timerDelay p (default 60000 (timeoutMs opts)))%N
  ∧ ctl_aborted (controller (exec p t0 c opts evs)) = false.
Proof.
  intros Hun.
  pose proof (exec_wired p t0 c opts evs) as Hw.
  pose proof (exec_timer p t0 c opts evs) as Hd.
  unfold wired in Hw. unfold is_settled in Hun.
  destruct (phase (exec p t0 c opts evs)); [| |done];
    destruct Hw as [Hab [d Hsome]]; (split; [|done]);
    destruct Hd as [Hd|Hd]; congruence.
Qed.

(** Before the deadline time passes without effect. *)
Lemma tick_before st due t :
  timer st = Some due → (t < due)%N → tick p t st = st.
Proof.
  unfold tick. intros -> Hlt.
  by assert ((due <=? t)%N = false) as -> by (by apply N.leb_gt).
Qed.

(** On a settled call a step is just its handler, and changes nothing
    that the caller can see. *)
Lemma handle_settled o ev st :
  settled_with o st → settled_with o (handle p ev st).
Proof.
  intros Hs. pose proof (step_settled p o st (0%N, ev) Hs) as Hstep.
  unfold step, tick in Hstep. destruct Hs as [_ Ht].
  by rewrite Ht in Hstep.
Qed.

(** The outcome reached after a prefix of the events is the outcome of
    the whole run. *)
Lemma runCodePilot_after t0 c opts pre rest o :
  settled_with o (exec p t0 c opts pre) →
  phase (runCodePilot p t0 c opts (pre ++ rest)) = Settled o.
Proof.
  intros Hs. unfold runCodePilot, exec in *. rewrite foldl_app.
  apply (foldl_step_settled p o rest) in Hs.
  rewrite (fireTimer_settled p _ _ Hs). apply Hs.
Qed.

Lemma exec_snoc t0 c opts pre tev :
  exec p t0 c opts (pre ++ [tev]) = step p (exec p t0 c opts pre) tev.
Proof. unfold exec. by rewrite foldl_app. Qed.


Lemma abortController_cid r st : cid (abortController p r st) = cid st.
Proof.
  unfold abortController. destruct (ctl_aborted _); [done|].
  by destruct (phase st).
Qed.

Lemma abortController_settles r st :
  ctl_aborted (controller st) = false → is_settled st = false →
  settled_with (catchClause (abortRejection p (abortReason p r)))
    (abortController p r st).
Proof.
  intros Hab Hun. unfold abortController, Controller_abort. rewrite !Hab.
  unfold is_settled in Hun.
  destruct (phase st); [| |done]; split; reflexivity.
Qed.

Lemma abortController_is_settled r st :
  (is_settled st = false → ctl_aborted (controller st) = false) →
  is_settled (abortController p r st) = true.
Proof.
  intros Hw. unfold abortController, is_settled in *.
  destruct (ctl_aborted (controller st)) eqn:Hab.
  - destruct (phase st); [by discriminate Hw..|done].
  - by destruct (phase st).
Qed.

Lemma callerAborts_in_flight c s r st :
  wired st → subscribed c s st → is_settled st = false →
  settled_with (catchClause (abortRejection p (abortReason p r)))
    (callerAborts p r st).
Proof.
  intros Hw [Hcid Hsub] Hun. specialize (Hsub Hun).
  unfold callerAborts. rewrite Hsub. simpl.
  rewrite bool_decide_eq_true_2 by (rewrite Hcid; set_solver).
  assert (abortReason p (abortReason p r) = abortReason p r) as Hidem.
  { by destruct r as [[]|]. }
  rewrite <- Hidem at 1. apply abortController_settles; simpl.
  - unfold wired, is_settled in *. destruct (phase st); [apply Hw..|done].
  - done.
Qed.

Lemma step_subscribed c s st tev :
  wired st → subscribed c s st → subscribed c s (step p st tev).
Proof.
  intros Hw Hsub. unfold step.
  assert (wired (tick p tev.1 st) ∧ subscribed c s (tick p tev.1 st))
    as [Hw' Hsub'].
  { split; [by apply tick_wired|].
    unfold tick. destruct (timer st) eqn:Ht; [|done].
    destruct (_ <=? _)%N; [|done].
    destruct Hsub as [Hcid Hsub]. split.
    - unfold fireTimer. rewrite Ht. by rewrite abortController_cid.
    - intros Hun. exfalso.
      assert (is_settled (fireTimer p st) = true); [|congruence].
      unfold fireTimer. rewrite Ht. apply abortController_is_settled.
      unfold wired, is_settled in *. simpl.
      destruct (phase st); [by destruct Hw..|done]. }
  clear Hw Hsub. revert Hw' Hsub'. generalize (tick p tev.1 st).
  clear st. intros st Hw Hsub.
  destruct tev as [t ev]. simpl.
  destruct (is_settled st) eqn:Hset.
  - assert (∃ o, settled_with o st) as [o Hs].
    { unfold is_settled, wired in *. destruct (phase st) eqn:Hph; try done.
      eexists. by split. }
    pose proof (handle_settled o ev st Hs) as [Hph' _].
    split.
    + destruct Hsub as [Hcid _]. destruct ev; unfold handle; simpl;
        destruct Hs as [Hph _]; rewrite ?Hph; try done.
      unfold callerAborts. destruct (parent st) as [s0|]; [|done].
      destruct (aborted s0); [done|].
      case_bool_decide; by rewrite ?abortController_cid.
    + unfold is_settled. by rewrite Hph'.
  - destruct ev as [r|res|err|raw|err].
    + pose proof (callerAborts_in_flight c s r st Hw Hsub Hset) as [Hph _].
      unfold handle. split.
      * destruct Hsub as [Hcid Hpar]. unfold callerAborts.
        rewrite (Hpar Hset). simpl. case_bool_decide;
          by rewrite ?abortController_cid.
      * unfold is_settled. by rewrite Hph.
    + destruct Hsub as [Hcid Hpar]. specialize (Hpar Hset).
      unfold handle. destruct (phase st); try done.
      destruct (checkStatus res); by split.
    + destruct Hsub as [Hcid Hpar]. specialize (Hpar Hset).
      unfold handle. destruct (phase st); try done; by split.
    + destruct Hsub as [Hcid Hpar]. specialize (Hpar Hset).
      unfold handle. destruct (phase st); try done; by split.
    + destruct Hsub as [Hcid Hpar]. specialize (Hpar Hset).
      unfold handle. destruct (phase st); try done; by split.
Qed.

Lemma exec_subscribed t0 c opts s evs :
  signal opts = Some s → aborted s = false →
  subscribed c s (exec p t0 c opts evs).
Proof.
  intros Hsig Hlive. unfold exec.
  assert (wired (start p t0 c opts) ∧ subscribed c s (start p t0 c opts))
    as Hstart.
  { split; [apply start_wired|].
    unfold start, mergeAbortSignals. rewrite Hsig, Hlive. simpl.
    by split. }
  revert Hstart. generalize (start p t0 c opts).
  induction evs as [|tev evs IH]; intros st [Hw Hsub]; [done|].
  simpl. apply IH. split; [by apply step_wired|by apply step_subscribed].
Qed.

Lemma catchClause_network v :
  is_AbortError_name (ownProp v "name") = false →
  catchClause (ThrowVal v) = Throws (ThrowCodePilotError network_error).
Proof.
  intros Hname. unfold catchClause, caughtProp.
  by rewrite !optChain_Normal, !bind_Normal, Hname.
Qed.

Lemma settle_Throws e st : settled_with (catchClause e) (settle (Throws e) st).
Proof. split; reflexivity. Qed.

End MachineMore.

Section CallExtras.

Implicit Types (p : Platform) (st : Call) (ev : Event) (t : N).

(** X1: whatever the host, the options and the environment do, the call
    ends either fulfilled with a response in canonical shape or rejected
    with an instance of [CodePilotError]; no other value reaches the
    caller. *)
Theorem runCodePilot_outcome_classified p t0 c opts evs :
  ∃ o, phase (runCodePilot p t0 c opts evs) = Settled o
       ∧ match o with
         | Normal r => is_canonical r = true
         | Throws e => instanceof_CodePilotError e = true
         end.
Proof.
  destruct (runCodePilot_settles p t0 c opts evs) as [Hs _].
  pose proof (runCodePilot_classified p t0 c opts evs) as Hc.
  unfold is_settled in Hs. unfold classified in Hc.
  destruct (phase (runCodePilot p t0 c opts evs)) as [| |o]; try done.
  exists o. split; [done|]. by destruct o.
Qed.

(** X2: the call sends exactly one request, a POST to [API_BASE/solve]
    carrying [problem] and [user_id], and never a second one; it sends
    none when the caller's signal is already aborted. *)
Theorem runCodePilot_sends_at_most_once p t0 c opts evs :
  requests (runCodePilot p t0 c opts evs)
  = if from_option aborted false (signal opts) then []
    else [ {| req_url := API_BASE p ++ "/solve";
              req_problem := problem opts;
              req_user_id := userId opts |} ].
Proof.
  unfold runCodePilot, exec.
  rewrite fireTimer_requests, foldl_step_requests.
  unfold start, mergeAbortSignals.
  destruct (signal opts) as [s|]; [|done]. simpl.
  by destruct (aborted s).
Qed.

(** X3: when a response with status 200-299 and then its JSON body arrive
    before the timeout is due (on the delay the host's [setTimeout] really
    uses), the call is fulfilled with the normalised body,
    whatever happens afterwards. *)
Theorem runCodePilot_success p t0 c opts pre t1 res t2 raw rest :
  phase (exec p t0 c opts pre) = AwaitFetch →
  (t1 < t0 + timerDelay p (default 60000 (timeoutMs opts)))%N →
  (t2 < t0 + timerDelay p (default 60000 (timeoutMs opts)))%N →
  res_ok res = true →
  phase (runCodePilot p t0 c opts
           (pre ++ (t1, FetchResolves res) :: (t2, JsonResolves raw) :: rest))
  = Settled (Normal (JObj (normalised raw))).
Proof.
  intros Hph Ht1 Ht2 Hok.
  replace (pre ++ (t1, FetchResolves res) :: (t2, JsonResolves raw) :: rest)%list
    with ((pre ++ [(t1, FetchResolves res); (t2, JsonResolves raw)]) ++ rest)%list
    by (by rewrite <- app_assoc).
  apply runCodePilot_after.
  destruct (exec_unsettled p t0 c opts pre) as [Hd _].
  { unfold is_settled. by rewrite Hph. }
  unfold exec in *. rewrite foldl_app. simpl.
  revert Hph Hd. generalize (foldl (step p) (start p t0 c opts) pre).
  intros st Hph Hd.
  unfold step at 2. simpl. rewrite (tick_before p st _ t1 Hd Ht1).
  unfold handle. rewrite Hph. unfold checkStatus. rewrite Hok. simpl.
  unfold step. simpl.
  rewrite (tick_before p (withPhase AwaitJson st) _ t2 Hd Ht2).
  unfold handle. simpl. rewrite normaliseResponse_eq. split; reflexivity.
Qed.

Lemma runCodePilot_success_witness :
  phase (runCodePilot whatwg 0 7 plain_options
           ([] ++ (120%N, FetchResolves ok_response)
               :: (450%N, JsonResolves sparse_body)
               :: [(70000%N, FetchRejects (ThrowVal failed_to_fetch))]))
  = Settled (Normal (JObj (normalised sparse_body))).
Proof.
  apply (runCodePilot_success whatwg 0 7 plain_options [] 120 ok_response
           450 sparse_body); reflexivity.
Defined.

(** X4: when [fetch] rejects before the timeout is due (on the delay the
    host's [setTimeout] really uses) with a value whose
    [name] is not ["AbortError"] (a connection failure), the call fails
    with the generic network error, which has no status. *)
Theorem runCodePilot_transport_failure p t0 c opts pre t v rest :
  phase (exec p t0 c opts pre) = AwaitFetch →
  (t < t0 + timerDelay p (default 60000 (timeoutMs opts)))%N →
  is_AbortError_name (ownProp v "name") = false →
  phase (runCodePilot p t0 c opts
           (pre ++ (t, FetchRejects (ThrowVal v)) :: rest))
  = Settled (Throws (ThrowCodePilotError
                       (new_CodePilotError
                          "Network error while calling CodePilot. Please try again."
                          None))).
Proof.
  intros Hph Ht Hname.
  replace (pre ++ (t, FetchRejects (ThrowVal v)) :: rest)%list
    with ((pre ++ [(t, FetchRejects (ThrowVal v))]) ++ rest)%list
    by (by rewrite <- app_assoc).
  apply runCodePilot_after. rewrite exec_snoc.
  destruct (exec_unsettled p t0 c opts pre) as [Hd _].
  { unfold is_settled. by rewrite Hph. }
  unfold step. simpl. rewrite (tick_before p _ _ t Hd Ht).
  unfold handle. rewrite Hph.
  fold network_error. rewrite <- (catchClause_network v Hname).
  apply settle_Throws.
Qed.

Lemma runCodePilot_transport_failure_witness :
  phase (runCodePilot whatwg 0 7 plain_options
           ([] ++ (120%N, FetchRejects (ThrowVal failed_to_fetch)) :: []))
  = Settled (Throws (ThrowCodePilotError
                       (new_CodePilotError
                          "Network error while calling CodePilot. Please try again."
                          None))).
Proof.
  apply (runCodePilot_transport_failure whatwg 0 7 plain_options [] 120
           failed_to_fetch []); reflexivity.
Defined.

(** X5: when the status was fine but reading the body fails before the
    timeout is due (on the delay the host's [setTimeout] really uses) with a value whose [name] is not ["AbortError"] (a body that
    is not JSON), the call fails with the same generic network error. *)
Theorem runCodePilot_body_failure p t0 c opts pre t v rest :
  phase (exec p t0 c opts pre) = AwaitJson →
  (t < t0 + timerDelay p (default 60000 (timeoutMs opts)))%N →
  is_AbortError_name (ownProp v "name") = false →
  phase (runCodePilot p t0 c opts
           (pre ++ (t, JsonRejects (ThrowVal v)) :: rest))
  = Settled (Throws (ThrowCodePilotError
                       (new_CodePilotError
                          "Network error while calling CodePilot. Please try again."
                          None))).
Proof.
  intros Hph Ht Hname.
  replace (pre ++ (t, JsonRejects (ThrowVal v)) :: rest)%list
    with ((pre ++ [(t, JsonRejects (ThrowVal v))]) ++ rest)%list
    by (by rewrite <- app_assoc).
  apply runCodePilot_after. rewrite exec_snoc.
  destruct (exec_unsettled p t0 c opts pre) as [Hd _].
  { unfold is_settled. by rewrite Hph. }
  unfold step. simpl. rewrite (tick_before p _ _ t Hd Ht).
  unfold handle. rewrite Hph.
  fold network_error. rewrite <- (catchClause_network v Hname).
  apply settle_Throws.
Qed.

Lemma runCodePilot_body_failure_witness :
  phase (runCodePilot whatwg 0 7 plain_options
           ([(120%N, FetchResolves ok_response)]
              ++ (450%N, JsonRejects (ThrowVal bad_json)) :: []))
  = Settled (Throws (ThrowCodePilotError
                       (new_CodePilotError
                          "Network error while calling CodePilot. Please try again."
                          None))).
Proof.
  apply (runCodePilot_body_failure whatwg 0 7 plain_options
           [(120%N, FetchResolves ok_response)] 450 bad_json []); reflexivity.
Defined.



(** X7: once the call has settled its outcome is final: nothing that
    happens later (a late response, a caller abort, the passing of time)
    changes it. *)
Theorem runCodePilot_settled_is_final p t0 c opts evs more :
  is_settled (exec p t0 c opts evs) = true →
  phase (exec p t0 c opts (evs ++ more)) = phase (exec p t0 c opts evs)
  ∧ phase (runCodePilot p t0 c opts (evs ++ more))
    = phase (exec p t0 c opts evs).
Proof.
  intros Hset.
  pose proof (exec_wired p t0 c opts evs) as Hw.
  unfold is_settled, wired in *.
  destruct (phase (exec p t0 c opts evs)) as [| |o] eqn:Hph; try done.
  assert (settled_with o (exec p t0 c opts evs)) as Hs by done.
  split.
  - unfold exec in *. rewrite foldl_app.
    by apply (foldl_step_settled p o more) in Hs as [-> _].
  - by apply runCodePilot_after.
Qed.

Lemma runCodePilot_settled_is_final_witness :
  phase (exec whatwg 0 7 signal_options
           ([(120%N, FetchResolves ok_response);
             (450%N, JsonResolves sparse_body)]
            ++ [(500%N, CallerAborts (ThrowVal JUndefined))]))
  = phase (exec whatwg 0 7 signal_options
             [(120%N, FetchResolves ok_response);
              (450%N, JsonResolves sparse_body)])
  ∧ phase (runCodePilot whatwg 0 7 signal_options
             ([(120%N, FetchResolves ok_response);
               (450%N, JsonResolves sparse_body)]
              ++ [(500%N, CallerAborts (ThrowVal JUndefined))]))
    = phase (exec whatwg 0 7 signal_options
               [(120%N, FetchResolves ok_response);
                (450%N, JsonResolves sparse_body)]).
Proof.
  apply (runCodePilot_settled_is_final whatwg 0 7 signal_options
           [(120%N, FetchResolves ok_response);
            (450%N, JsonResolves sparse_body)]
           [(500%N, CallerAborts (ThrowVal JUndefined))]).
  reflexivity.
Defined.

(** X8: when the caller aborts a signal that was live at the start, while
    the call is in flight and before the timeout is due (on the delay the
    host's [setTimeout] really uses), the call ends with the
    classification of the host's rejection for the caller's reason (the
    default [AbortError] when none was given). *)
Theorem runCodePilot_caller_abort p t0 c opts s pre t r rest :
  signal opts = Some s →
  aborted s = false →
  is_settled (exec p t0 c opts pre) = false →
  (t < t0 + timerDelay p (default 60000 (timeoutMs opts)))%N →
  phase (runCodePilot p t0 c opts (pre ++ (t, CallerAborts r) :: rest))
  = Settled (catchClause (abortRejection p (abortReason p r))).
Proof.
  intros Hsig Hlive Hun Ht.
  replace (pre ++ (t, CallerAborts r) :: rest)%list
    with ((pre ++ [(t, CallerAborts r)]) ++ rest)%list
    by (by rewrite <- app_assoc).
  apply runCodePilot_after. rewrite exec_snoc.
  destruct (exec_unsettled p t0 c opts pre Hun) as [Hd _].
  unfold step. simpl. rewrite (tick_before p _ _ t Hd Ht).
  unfold handle.
  eapply callerAborts_in_flight;
    [apply exec_wired | by eapply exec_subscribed | done].
Qed.

Lemma runCodePilot_caller_abort_witness :
  phase (runCodePilot whatwg 0 7 signal_options
           ([(120%N, FetchResolves ok_response)]
              ++ (300%N, CallerAborts (ThrowVal JUndefined)) :: []))
  = Settled (Throws (ThrowCodePilotError
                       (new_CodePilotError "signal is aborted without reason"
                          None))).
Proof.
  apply (runCodePilot_caller_abort whatwg 0 7 signal_options fresh_signal
           [(120%N, FetchResolves ok_response)] 300 (ThrowVal JUndefined) []);
    reflexivity.
Defined.

(** X9: the [catch] clause copes with any thrown value that is not an
    instance of the module's class ([null], [undefined] and primitives
    included): reading [name] and [message] never raises, and the error it
    throws has no status; it is the generic network error unless the
    value's [name] is ["AbortError"]. *)
Theorem catchClause_plain_value v :
  ∃ e, catchClause (ThrowVal v) = Throws (ThrowCodePilotError e)
       ∧ status e = None
       ∧ (if is_AbortError_name (ownProp v "name")
          then message e = match ownProp v "message" with
                           | JStr m => m
                           | _ => "Request aborted or timed out"
                           end
          else e = network_error).
Proof.
  unfold catchClause, caughtProp.
  rewrite !optChain_Normal, !bind_Normal.
  destruct (is_AbortError_name (ownProp v "name")); simpl; eauto.
Qed.

Lemma parent_without_caller_abort p t0 c opts evs :
  callerQuiet evs →
  parent (runCodePilot p t0 c opts evs)
  = match signal opts with
    | None => None
    | Some s =>
        Some (if aborted s then s
              else {| aborted := false; reason := reason s;
                      listeners := listeners s ++ [c] |})
    end.
Proof.
  intros Hall. unfold runCodePilot, exec. rewrite fireTimer_parent.
  assert (parent (start p t0 c opts)
          = match signal opts with
            | None => None
            | Some s =>
                Some (if aborted s then s
                      else {| aborted := false; reason := reason s;
                              listeners := listeners s ++ [c] |})
            end) as <-.
  { unfold start, mergeAbortSignals. destruct (signal opts) as [s|]; [|done].
    by destruct (aborted s). }
  generalize (start p t0 c opts).
  induction Hall as [|[t ev] evs Hev Hall IH]; intros st; [done|].
  simpl. rewrite IH. unfold step. simpl.
  assert (parent (tick p t st) = parent st) as <-.
  { unfold tick. destruct (timer st); [|done].
    destruct (_ <=? _)%N; [apply fireTimer_parent|done]. }
  generalize (tick p t st). intros st'.
  destruct ev as [r|res|err|raw|err]; simpl in Hev; [done|..];
    unfold handle; destruct (phase st'); try done.
  by destruct (checkStatus res).
Qed.

(** X10: the call itself never aborts the caller's signal nor touches its
    reason: as long as the caller does not abort it, the signal is, at the
    end of the call, what it was at the start, plus the call's listener if
    it was live; in particular the timeout aborts only the call's own
    controller. *)
Theorem runCodePilot_leaves_signal p t0 c opts evs :
  Forall (λ tev, match tev.2 with CallerAborts _ => False | _ => True end)
    evs →
  parent (runCodePilot p t0 c opts evs)
  = match signal opts with
    | None => None
    | Some s =>
        Some (if aborted s then s
              else {| aborted := false; reason := reason s;
                      listeners := listeners s ++ [c] |})
    end.
Proof. apply parent_without_caller_abort. Qed.

Lemma runCodePilot_leaves_signal_witness :
  parent (runCodePilot whatwg 0 7 signal_options
            [(6000%N, FetchResolves ok_response)])
  = Some {| aborted := false; reason := ThrowVal JUndefined;
            listeners := [7] |}.
Proof.
  apply (runCodePilot_leaves_signal whatwg 0 7 signal_options
           [(6000%N, FetchResolves ok_response)]).
  repeat constructor.
Defined.

(** X20: calls made one after the other with the same live signal, which
    the caller never aborts, each leave their listener behind: after them
    the signal carries one more listener per call, in call order, on top
    of those it had. *)
Theorem runCodePilot_listeners_pile_up p s calls :
  aborted s = false →
  Forall (λ call, callerQuiet call.2) calls →
  callsInSequence p (Some s) calls
  = Some {| aborted := false; reason := reason s;
            listeners := listeners s ++ map (λ call, call.1.1.2) calls |}.
Proof.
  intros Hlive Hquiet. unfold callsInSequence.
  revert s Hlive. induction Hquiet as [|call calls Hq Hqs IH]; intros s Hlive.
  - simpl. rewrite app_nil_r. by destruct s; simpl in *; subst.
  - cbn [foldl]. rewrite parent_without_caller_abort by done.
    cbn [signal]. rewrite Hlive. rewrite IH by done. simpl.
    by rewrite <- app_assoc.
Qed.

Lemma runCodePilot_listeners_pile_up_witness :
  callsInSequence whatwg (Some fresh_signal)
    [ (0%N, 7, "two sum",
       [(120%N, FetchResolves ok_response); (450%N, JsonResolves sparse_body)]);
      (1000%N, 8, "three sum", []);
      (90000%N, 9, "four sum",
       [(90010%N, FetchRejects (ThrowVal failed_to_fetch))]) ]
  = Some {| aborted := false; reason := ThrowVal JUndefined;
            listeners := [7; 8; 9] |}.
Proof.
  apply (runCodePilot_listeners_pile_up whatwg fresh_signal
           [ (0%N, 7, "two sum",
              [(120%N, FetchResolves ok_response);
               (450%N, JsonResolves sparse_body)]);
             (1000%N, 8, "three sum", []);
             (90000%N, 9, "four sum",
              [(90010%N, FetchRejects (ThrowVal failed_to_fetch))]) ]).
  - reflexivity.
  - repeat constructor.
Defined.

(** A [timeoutMs] that does not fit 32 bits is no long timeout: the timer
    is due at once, and a response 150 ms later comes too late. *)
Example runCodePilot_timeout_overflow :
  timerDelay whatwg 2147483648 = 0%N
  ∧ timerDelay whatwg 2147483647 = 2147483647%N
  ∧ phase (runCodePilot whatwg 0 7
             {| problem := "two sum"; userId := None;
                timeoutMs := Some 2147483648%N; signal := None |}
             [ (150%N, FetchResolves ok_response);
               (300%N, JsonResolves sparse_body) ])
    = Settled (Throws (ThrowCodePilotError network_error)).
Proof. repeat split; vm_compute; reflexivity. Qed.

End CallExtras.

(** * The page, the theme and the test results *)

Section PageExtras.

(** X11: when [handleRun] is over the page is in one of two states, fixed
    by how the call ended.  If the call was fulfilled with [r], which is
    then in canonical shape, the page is not loading, shows [r], has no
    error and no new toast.  If the call was rejected, necessarily with a
    [CodePilotError] [e], the page is not loading, shows no result, has
    the message of [e] as its error and one new error toast with that
    message.  The "Unexpected error" fallback of its [catch] clause is
    never what decides the text. *)
Theorem handleRun_completes p t0 c problem evs (s : HomePage.State) :
  let call := runCodePilot p t0 c
                {| problem := problem; userId := None; timeoutMs := None;
                   signal := None |} evs in
  let s' := HomePage.handleRun p t0 c problem evs s in
  (∃ r, phase call = Settled (Normal r)
        ∧ is_canonical r = true
        ∧ s' = {| HomePage.result := Some r;
                  HomePage.isLoading := false;
                  HomePage.error := None;
                  HomePage.shown := HomePage.shown s |})
  ∨ (∃ e, phase call = Settled (Throws (ThrowCodePilotError e))
          ∧ s' = {| HomePage.result := None;
                    HomePage.isLoading := false;
                    HomePage.error := Some (message e);
                    HomePage.shown :=
                      (HomePage.shown s
                         ++ [(message e, HomePage.ToastError)])%list |}).
Proof.
  cbv zeta. unfold HomePage.handleRun.
  destruct (runCodePilot_settles p t0 c
              {| problem := problem; userId := None; timeoutMs := None;
                 signal := None |} evs) as [Hset _].
  pose proof (runCodePilot_classified p t0 c
                {| problem := problem; userId := None; timeoutMs := None;
                   signal := None |} evs) as Hcl.
  unfold is_settled in Hset. unfold classified in Hcl.
  destruct (phase _) as [| |[r|[v|e]]]; try done.
  - left. exists r. by repeat split.
  - right. exists e. by repeat split.
Qed.

(** X12: the theme chosen with the toggle survives a reload: mounting the
    navbar again after [toggleTheme] gives back the toggled state, with the
    class on [<html>] in step with [isDark], whatever the operating system
    prefers. *)
Theorem Navbar_toggle_survives_reload prefersDark (st : Navbar.State) :
  Navbar.mount prefersDark (Navbar.toggleTheme st) = Navbar.toggleTheme st
  ∧ Navbar.htmlDark (Navbar.toggleTheme st)
    = Navbar.isDark (Navbar.toggleTheme st)
  ∧ Navbar.isDark (Navbar.toggleTheme st) = negb (Navbar.isDark st).
Proof.
  unfold Navbar.mount, Navbar.toggleTheme. simpl.
  by destruct (Navbar.isDark st).
Qed.

(** X13: on a navbar that has been mounted and whose stored theme is the
    one it shows, toggling twice changes nothing. *)
Theorem Navbar_toggle_twice (st : Navbar.State) :
  Navbar.htmlDark st = Navbar.isDark st →
  Navbar.stored st = Some (if Navbar.isDark st then "dark" else "light") →
  Navbar.toggleTheme (Navbar.toggleTheme st) = st.
Proof.
  destruct st as [d h o]. simpl. intros -> ->.
  unfold Navbar.toggleTheme. simpl. by destruct d.
Qed.

Lemma Navbar_toggle_twice_witness :
  Navbar.toggleTheme
    (Navbar.toggleTheme
       (Navbar.mount false
          {| Navbar.isDark := true; Navbar.htmlDark := false;
             Navbar.stored := Some "light" |}))
  = Navbar.mount false
      {| Navbar.isDark := true; Navbar.htmlDark := false;
         Navbar.stored := Some "light" |}.
Proof.
  apply (Navbar_toggle_twice
           (Navbar.mount false
              {| Navbar.isDark := true; Navbar.htmlDark := false;
                 Navbar.stored := Some "light" |})); reflexivity.
Defined.

(** X14: [TestResults] draws one row per case, in order, each made by
    [CaseRow]; when there is at least one case it shows two counters, the
    "Passed" one being the number of rows drawn with the check icon and
    the two adding up to the number of cases; with no case there is
    neither counter nor row.  The summary line is the summary, or the
    placeholder text.  This needs of [toLowerCase] only that it does not
    turn [""] or ["unknown"] into ["passed"]. *)
Theorem TestResults_counters_match_rows (toLowerCase : string → string)
    (test : TestResults.TestResult) :
  toLowerCase "" ≠ "passed" →
  toLowerCase "unknown" ≠ "passed" →
  let cases := default [] (TestResults.cases test) in
  let rows := map (TestResults.CaseRow toLowerCase) cases in
  let checked :=
    length (List.filter
              (λ r, match TestResults.icon r with
                    | TestResults.CheckCircleIcon => true
                    | TestResults.ExclamationCircleIcon => false
                    end) rows) in
  TestResults.TestResults toLowerCase (Some test)
  = TestResults.Results
      (default "Test execution summary not provided."
         (TestResults.summary test))
      (match cases with
       | [] => None
       | _ => Some (checked, (length cases - checked)%nat)
       end)
      rows
  ∧ (checked ≤ length cases)%nat.
Proof.
  intros Hempty Hunknown. cbv zeta. unfold TestResults.TestResults.
  generalize (default [] (TestResults.cases test)). intros cs.
  assert (∀ c, (match TestResults.icon (TestResults.CaseRow toLowerCase c) with
                | TestResults.CheckCircleIcon => true
                | TestResults.ExclamationCircleIcon => false
                end) = TestResults.countsAsPassed toLowerCase c) as Hrow.
  { intros c. unfold TestResults.CaseRow, TestResults.countsAsPassed. simpl.
    destruct (TestResults.status c) as [st|]; simpl.
    - assert (bool_decide (Some st = Some "success")
              = bool_decide (st = "success")) as ->.
      { apply bool_decide_ext. split; [by intros [= ->]|by intros ->]. }
      by destruct (_ || _).
    - rewrite !bool_decide_eq_false_2; done. }
  assert (length (List.filter
                    (λ r, match TestResults.icon r with
                          | TestResults.CheckCircleIcon => true
                          | TestResults.ExclamationCircleIcon => false
                          end) (map (TestResults.CaseRow toLowerCase) cs))
          = length (List.filter (TestResults.countsAsPassed toLowerCase) cs))
    as Hlen.
  { clear -Hrow. induction cs as [|c l IH]; [done|].
    cbn [List.map List.filter]. rewrite Hrow.
    destruct (TestResults.countsAsPassed _ c); cbn [length]; by rewrite IH. }
  rewrite Hlen.
  pose proof (List.filter_length_le
                (TestResults.countsAsPassed toLowerCase) cs) as Hle.
  split; [|done]. by destruct cs.
Qed.

Lemma TestResults_counters_match_rows_witness :
  TestResults.TestResults TestResults.asciiLower
    (Some {| TestResults.summary := None;
             TestResults.cases :=
               Some [ {| TestResults.name := Some "adds";
                         TestResults.status := Some "PASSED";
                         TestResults.message := None;
                         TestResults.error := None |};
                      {| TestResults.name := None;
                         TestResults.status := None;
                         TestResults.message := Some "";
                         TestResults.error := Some "boom" |} ] |})
  = TestResults.Results "Test execution summary not provided."
      (Some (1, 1))
      [ {| TestResults.icon := TestResults.CheckCircleIcon;
           TestResults.iconClass := "text-emerald-400";
           TestResults.title := "adds";
           TestResults.messageLine := None;
           TestResults.errorLine := None;
           TestResults.chipClass :=
             "bg-emerald-500/15 text-emerald-300 border-emerald-400/40";
           TestResults.chipLabel := "PASSED" |};
        {| TestResults.icon := TestResults.ExclamationCircleIcon;
           TestResults.iconClass := "text-amber-300";
           TestResults.title := "Unnamed test case";
           TestResults.messageLine := None;
           TestResults.errorLine := Some "boom";
           TestResults.chipClass :=
             "bg-amber-500/10 text-amber-300 border-amber-400/40";
           TestResults.chipLabel := "unknown" |} ]
  ∧ (1 ≤ 2)%nat.
Proof.
  apply (TestResults_counters_match_rows TestResults.asciiLower
           {| TestResults.summary := None;
              TestResults.cases :=
                Some [ {| TestResults.name := Some "adds";
                          TestResults.status := Some "PASSED";
                          TestResults.message := None;
                          TestResults.error := None |};
                       {| TestResults.name := None;
                          TestResults.status := None;
                          TestResults.message := Some "";
                          TestResults.error := Some "boom" |} ] |});
    vm_compute; discriminate.
Defined.

(** X15: a row drawn with the check icon is always coloured as a pass:
    its icon colour and its chip are the emerald ones.  This needs of
    [toLowerCase] only that it does not turn [""] into ["passed"] and
    leaves ["success"] as it is. *)
Theorem CaseRow_pass_is_green (toLowerCase : string → string)
    (testCase : TestResults.TestCaseResult) :
  toLowerCase "" ≠ "passed" →
  toLowerCase "success" = "success" →
  TestResults.icon (TestResults.CaseRow toLowerCase testCase)
  = TestResults.CheckCircleIcon →
  TestResults.iconClass (TestResults.CaseRow toLowerCase testCase)
  = "text-emerald-400"
  ∧ TestResults.chipClass (TestResults.CaseRow toLowerCase testCase)
    = "bg-emerald-500/15 text-emerald-300 border-emerald-400/40".
Proof.
  intros Hempty Hsuccess. unfold TestResults.CaseRow. simpl.
  set (status := default "unknown" (TestResults.status testCase)).
  destruct (bool_decide (toLowerCase status = "passed")
            || bool_decide (status = "success")) eqn:Hpass; [|done].
  intros _.
  assert (status ≠ "") as Hne.
  { intros Heq. rewrite Heq in Hpass.
    rewrite bool_decide_eq_false_2 in Hpass by done. done. }
  assert (bool_decide (toLowerCase status = "passed")
          || bool_decide (toLowerCase status = "success") = true) as Hlow.
  { apply orb_true_iff in Hpass as [Hp|Hs]; apply orb_true_iff.
    - by left.
    - right. apply bool_decide_eq_true in Hs. rewrite Hs.
      by apply bool_decide_eq_true. }
  unfold TestResults.statusColor, TestResults.statusChipClasses,
    TestResults.whenTruthy.
  rewrite (bool_decide_eq_false_2 _ Hne). simpl. by rewrite Hlow.
Qed.

Lemma CaseRow_pass_is_green_witness :
  TestResults.iconClass
    (TestResults.CaseRow TestResults.asciiLower
       {| TestResults.name := Some "adds";
          TestResults.status := Some "Passed";
          TestResults.message := None; TestResults.error := None |})
  = "text-emerald-400"
  ∧ TestResults.chipClass
      (TestResults.CaseRow TestResults.asciiLower
         {| TestResults.name := Some "adds";
            TestResults.status := Some "Passed";
            TestResults.message := None; TestResults.error := None |})
    = "bg-emerald-500/15 text-emerald-300 border-emerald-400/40".
Proof.
  apply (CaseRow_pass_is_green TestResults.asciiLower);
    [vm_compute; discriminate | reflexivity | reflexivity].
Defined.

End PageExtras.

(** * Toasts *)

Section ToastExtras.

Import ToastProvider.

Implicit Types (st : State) (ts : list Toast) (t due : N).

Lemma effect_in_step t ts : in_step (effect t ts).
Proof. unfold in_step, effect. simpl. by destruct ts. Qed.

Lemma expire_in_step t due ts : in_step (expire t due ts).
Proof.
  revert due. induction ts as [|x rest IH]; intros due; simpl; [done|].
  destruct (due <=? t)%N; [apply IH|]. unfold in_step. simpl. split; done.
Qed.

Lemma advance_in_step t st : in_step st → in_step (advance t st).
Proof.
  unfold advance. intros Hst. destruct (timer st); [|done].
  apply expire_in_step.
Qed.


(** X16: at every moment the auto-dismiss timer is pending exactly when
    at least one toast is on screen: no timer is left running on an empty
    list, and no toast is left without a timer that will remove it. *)
Theorem ToastProvider_timer_follows_toasts (evs : list (N * Event)) t :
  (timer (run evs) = None ↔ toasts (run evs) = [])
  ∧ (timer (advance t (run evs)) = None ↔ toasts (advance t (run evs)) = []).
Proof.
  assert (in_step (run evs)) as Hrun.
  { unfold run.
    assert (in_step initial) as Hinit by done.
    revert Hinit. generalize initial.
    induction evs as [|[t' ev] evs IH]; intros st Hst; [done|].
    simpl. apply IH. unfold step. simpl.
    destruct ev; apply effect_in_step. }
  split; [exact Hrun|]. by apply advance_in_step.
Qed.



(** X18: dismissing a toast just shown gives back the list as it was,
    provided its id is not the id of a toast already on screen; [dismiss]
    removes every toast that carries the id. *)
Theorem ToastProvider_show_then_dismiss st t t' i message type :
  Forall (λ x, id x ≠ i) (toasts st) →
  toasts (dismiss t' i (showToast t i message type st)) = toasts st.
Proof.
  intros Hfresh. unfold dismiss, showToast, effect. simpl.
  rewrite filter_app.
  rewrite filter_cons_False by (simpl; intros H; by apply H).
  rewrite filter_nil, app_nil_r.
  induction Hfresh as [|x l Hx Hl IH]; [done|].
  rewrite filter_cons_True by done. by rewrite IH.
Qed.

Lemma ToastProvider_show_then_dismiss_witness :
  toasts (dismiss 700 "2-b"
            (showToast 500 "2-b" "Network error" (Some HomePage.ToastError)
               (run [(0%N, Show "1-a" "Saved" None)])))
  = toasts (run [(0%N, Show "1-a" "Saved" None)]).
Proof.
  apply (ToastProvider_show_then_dismiss
           (run [(0%N, Show "1-a" "Saved" None)]) 500 700 "2-b"
           "Network error" (Some HomePage.ToastError)).
  repeat constructor. vm_compute. discriminate.
Defined.

End ToastExtras.

(** * The input form *)

Section ChatInputExtras.

Import ChatInput.

Implicit Types (s q : list N) (c : N).

Lemma trimStart_split s :
  ∃ a, s = (a ++ trimStart s)%list ∧ Forall (λ c, isWhiteSpace c = true) a.
Proof.
  induction s as [|c s (a & Ha & Hws)]; [by exists []|].
  simpl. destruct (isWhiteSpace c) eqn:Hc.
  - exists (c :: a). split; [by rewrite Ha at 1|by constructor].
  - by exists [].
Qed.

Lemma trimStart_clean s : starts_clean (trimStart s).
Proof.
  induction s as [|c s IH]; [done|].
  simpl. by destruct (isWhiteSpace c) eqn:Hc.
Qed.

Lemma trimStart_fixed s : starts_clean s → trimStart s = s.
Proof. destruct s as [|c s]; [done|]. simpl. by intros ->. Qed.

Lemma trimStart_snoc s c :
  isWhiteSpace c = false → trimStart (s ++ [c]) = (trimStart s ++ [c])%list.
Proof.
  intros Hc. induction s as [|d s IH]; simpl; [by rewrite Hc|].
  by destruct (isWhiteSpace d).
Qed.

Lemma trimEnd_cons c s :
  isWhiteSpace c = false → trimEnd (c :: s) = c :: trimEnd s.
Proof.
  intros Hc. unfold trimEnd. rewrite reverse_cons.
  rewrite trimStart_snoc by done. by rewrite reverse_app.
Qed.

Lemma trimEnd_split s :
  ∃ b, s = (trimEnd s ++ b)%list ∧ Forall (λ c, isWhiteSpace c = true) b.
Proof.
  destruct (trimStart_split (reverse s)) as (a & Ha & Hws).
  exists (reverse a). split.
  - unfold trimEnd. rewrite <- reverse_app, <- Ha.
    by rewrite reverse_involutive.
  - by apply Forall_reverse.
Qed.

Lemma trimEnd_idem s : trimEnd (trimEnd s) = trimEnd s.
Proof.
  unfold trimEnd. rewrite reverse_involutive.
  by rewrite (trimStart_fixed _ (trimStart_clean _)).
Qed.

Lemma trimEnd_last s :
  match last (trimEnd s) with
  | Some c => isWhiteSpace c = false
  | None => True
  end.
Proof.
  unfold trimEnd. rewrite last_reverse.
  pose proof (trimStart_clean (reverse s)) as Hc.
  by destruct (trimStart (reverse s)).
Qed.

Lemma trim_clean s : starts_clean (trim s).
Proof.
  unfold trim. pose proof (trimStart_clean s) as Hc.
  destruct (trimStart s) as [|c s']; [done|].
  simpl in Hc. by rewrite trimEnd_cons.
Qed.

Lemma trim_idem s : trim (trim s) = trim s.
Proof.
  unfold trim at 1. rewrite (trimStart_fixed _ (trim_clean s)).
  unfold trim. apply trimEnd_idem.
Qed.

(** X19: [handleSubmit] calls [onSubmit] only when the page is not
    loading, and only with a text that is not empty, starts and ends with
    a code unit that is not white space, is left unchanged by a second
    [trim], and is the typed text cut of the white space on both sides. *)
Theorem handleSubmit_sends_trimmed s isLoading q :
  handleSubmit s isLoading = Some q →
  isLoading = false
  ∧ q ≠ []
  ∧ trim q = q
  ∧ starts_clean q
  ∧ match last q with Some c => isWhiteSpace c = false | None => False end
  ∧ ∃ a b, s = (a ++ q ++ b)%list
           ∧ Forall (λ c, isWhiteSpace c = true) a
           ∧ Forall (λ c, isWhiteSpace c = true) b.
Proof.
  unfold handleSubmit.
  destruct (bool_decide (trim s = [])) eqn:Hempty; [done|].
  destruct isLoading; [done|]. simpl. intros [= <-].
  apply bool_decide_eq_false in Hempty.
  split; [done|]. split; [done|].
  split; [apply trim_idem|]. split; [apply trim_clean|]. split.
  - pose proof (trimEnd_last (trimStart s)) as Hl. unfold trim in *.
    destruct (last (trimEnd (trimStart s))) eqn:Hlast; [done|].
    apply last_None in Hlast. done.
  - destruct (trimStart_split s) as (a & Ha & Hwa).
    destruct (trimEnd_split (trimStart s)) as (b & Hb & Hwb).
    exists a, b. split; [|done]. unfold trim. by rewrite <- Hb.
Qed.

Lemma handleSubmit_sends_trimmed_witness :
  isWhiteSpace 160 = true
  ∧ handleSubmit [32; 160; 102; 105; 120; 32; 105; 116; 10; 8232]%N false
    = Some [102; 105; 120; 32; 105; 116]%N
  ∧ trim [102; 105; 120; 32; 105; 116]%N = [102; 105; 120; 32; 105; 116]%N.
Proof.
  split; [reflexivity|]. split; [reflexivity|].
  apply (handleSubmit_sends_trimmed
           [32; 160; 102; 105; 120; 32; 105; 116; 10; 8232]%N false
           [102; 105; 120; 32; 105; 116]%N).
  reflexivity.
Defined.

End ChatInputExtras.
